(** * Writing agent: the agent loop, its tools and the SSE framing

    A shallow embedding of [backend/agent.py], [backend/studio_graph.py]
    and [backend/main.py].

    - Python [str] values are sequences of Unicode code points: [list N].
    - Async generators are finite traces of yields closed by a normal
      stop or by a raised exception.
    - The model gateway ([ChatOpenAI.ainvoke]) is a function on an
      explicit state of the outside world; the prebuilt tool node and
      the bound on the steps of the graph are the fields of
      [Agent.Runtime]. *)

From Stdlib Require Import String Ascii DecimalString DecimalNat.
From Stdlib Require Import List NArith ZArith Bool Lia Sorted Permutation.
Import ListNotations.

Set Implicit Arguments.

(** ** Python strings *)

Module Py.

Definition char := N.
Definition str := list char.

(** An ASCII literal of the source, as a Python string. *)
Fixpoint lit (s : string) : str :=
  match s with
  | EmptyString => []
  | String a s' => N_of_ascii a :: lit s'
  end.

(** Several source lines of a triple-quoted literal, joined by newlines. *)
Fixpoint lines (l : list str) : str :=
  match l with
  | [] => []
  | [x] => x
  | x :: rest => x ++ 10%N :: lines rest
  end.

Definition char_eqb : char -> char -> bool := N.eqb.

Fixpoint str_eqb (a b : str) : bool :=
  match a, b with
  | [], [] => true
  | x :: a', y :: b' => char_eqb x y && str_eqb a' b'
  | _, _ => false
  end.

(** Truthiness of a string: [if s:]. *)
Definition truthy (s : str) : bool :=
  match s with [] => false | _ :: _ => true end.

(** [c.isspace()] for a single code point: the code points with
    bidirectional type WS, B or S, or category Zs. *)
Definition isspace (c : char) : bool :=
  ((9 <=? c) && (c <=? 13) || (28 <=? c) && (c <=? 32)
   || (c =? 133) || (c =? 160) || (c =? 5760)
   || (8192 <=? c) && (c <=? 8202)
   || (c =? 8232) || (c =? 8233) || (c =? 8239) || (c =? 8287)
   || (c =? 12288))%N.

(** [s.split()]: maximal runs of non-whitespace characters, in order. *)
Fixpoint split (s : str) : list str :=
  match s with
  | [] => []
  | c :: s' =>
      if isspace c then split s'
      else match s' with
           | [] => [[c]]
           | d :: _ =>
               if isspace d then [c] :: split s'
               else match split s' with
                    | [] => [[c]]
                    | w :: ws => (c :: w) :: ws
                    end
           end
  end.

Fixpoint lstrip (s : str) : str :=
  match s with
  | [] => []
  | c :: s' => if isspace c then lstrip s' else s
  end.

Definition rstrip (s : str) : str := rev (lstrip (rev s)).

(** [s.strip()] *)
Definition strip (s : str) : str := rstrip (lstrip s).

(** [sep.join(l)] *)
Fixpoint join (sep : str) (l : list str) : str :=
  match l with
  | [] => []
  | [x] => x
  | x :: rest => x ++ sep ++ join sep rest
  end.

Fixpoint starts_with (p s : str) : bool :=
  match p, s with
  | [], _ => true
  | x :: p', y :: s' => char_eqb x y && starts_with p' s'
  | _ :: _, [] => false
  end.

(** [s.split(sep)] for a non-empty separator: left-to-right,
    non-overlapping occurrences of [sep]; [skip] counts the characters
    of a matched separator still to be passed over and [cur] holds the
    current piece, reversed. *)
Fixpoint split_sep_go (sep : str) (skip : nat) (cur : str) (s : str)
  : list str :=
  match s with
  | [] => [rev cur]
  | c :: s' =>
      match skip with
      | S k => split_sep_go sep k cur s'
      | O =>
          if starts_with sep s
          then rev cur :: split_sep_go sep (length sep - 1) [] s'
          else split_sep_go sep 0 (c :: cur) s'
      end
  end.

Definition split_sep (sep s : str) : list str := split_sep_go sep 0 [] s.

(** [str(n)] for a non-negative integer. *)
Definition str_of_nat (n : nat) : str :=
  lit (NilZero.string_of_uint (Nat.to_uint n)).

(** [p in s] *)
Fixpoint contains (p s : str) {struct s} : bool :=
  starts_with p s
  || match s with
     | [] => false
     | _ :: s' => contains p s'
     end.

End Py.

Import Py.

(** ** Conversation data (agent.py, [WritingState] and the message classes) *)

Definition exn := str.

(** The [context] mapping of a request; [dict_get] is [d.get(k)]. *)
Definition dict (V : Type) := list (str * V).

Fixpoint dict_get {V : Type} (d : dict V) (k : str) : option V :=
  match d with
  | [] => None
  | (k', v) :: d' => if str_eqb k' k then Some v else dict_get d' k
  end.

Record ToolCall := {
  tc_name : str;
  tc_args : dict str;
  tc_id : str
}.

Inductive Message :=
| SystemMessage (content : str)
| HumanMessage (content : str)
| AIMessage (content : str) (tool_calls : list ToolCall)
| ToolMessage (content : str) (tool_call_id : str).

Record WritingState := {
  messages : list Message;
  content : str;
  context : dict str;
  action : str;
  iterations : Z;
  max_iterations : Z
}.

(** What a node returns: the channels it writes. *)
Record NodeOutput := {
  out_messages : list Message;
  out_iterations : option Z
}.

(** Neither channel of [WritingState] declares a reducer, so a written
    channel replaces the previous value. *)
Definition apply_output (st : WritingState) (out : NodeOutput) : WritingState :=
  {| messages := out_messages out;
     content := content st;
     context := context st;
     action := action st;
     iterations := match out_iterations out with
                   | Some i => i
                   | None => iterations st
                   end;
     max_iterations := max_iterations st |}.

(** [messages[-1]], when [messages] is not empty. *)
Definition last_message (ms : list Message) : option Message :=
  match rev ms with
  | [] => None
  | m :: _ => Some m
  end.

(** ** Async generators as finite traces *)

Inductive gen (A : Type) : Type :=
| Stop
| Raise (e : exn)
| Yield (a : A) (k : gen A).

Arguments Stop {A}.
Arguments Raise {A} e.

Fixpoint yield_all {A : Type} (xs : list A) (k : gen A) : gen A :=
  match xs with
  | [] => k
  | x :: xs' => Yield x (yield_all xs' k)
  end.

(** [async for b in g: for a in body(b): yield a] *)
Fixpoint for_each {A B : Type} (g : gen B) (body : B -> list A) : gen A :=
  match g with
  | Stop => Stop
  | Raise e => Raise e
  | Yield b k => yield_all (body b) (for_each k body)
  end.

(** [try: g  except Exception as e: h(e)] around a generator body. *)
Fixpoint try_except {A : Type} (g : gen A) (h : exn -> gen A) : gen A :=
  match g with
  | Stop => Stop
  | Raise e => h e
  | Yield a k => Yield a (try_except k h)
  end.

(** The values a generator yields, and how it finishes. *)
Fixpoint yielded {A : Type} (g : gen A) : list A :=
  match g with
  | Yield a k => a :: yielded k
  | _ => []
  end.

Fixpoint raised {A : Type} (g : gen A) : option exn :=
  match g with
  | Stop => None
  | Raise e => Some e
  | Yield _ k => raised k
  end.

(** ** The agent (agent.py) *)

Module Agent.

Definition system_prompt_generate : str :=
  lines
    [ lit "You are an expert writing assistant. When asked to generate text, provide ONLY the clean, well-written content that should be inserted directly into the document. ";
      [];
      lit "DO NOT include:";
      (lit "- Explanatory text like " ++ [34%N] ++ lit "Here's a draft" ++ [34%N] ++ lit " or " ++ [34%N] ++ lit "Based on your prompt" ++ [34%N]);
      lit "- Meta-commentary about the writing process";
      lit "- Markdown headers or formatting (the editor will handle formatting)";
      lit "- References to the prompt or instructions";
      [];
      lit "DO provide:";
      lit "- Clean, polished prose that directly fulfills the request";
      lit "- Natural paragraph breaks using double line breaks";
      lit "- Content that flows seamlessly as if written by the user";
      [];
      lit "Available tools:";
      lit "- analyze_text_structure: Analyze text structure and organization";
      lit "- suggest_improvements: Get specific improvement suggestions  ";
      lit "- extract_key_themes: Identify key themes and topics";
      [];
      lit "Focus on producing clean, insertable content only." ].

Definition system_prompt_edit : str :=
  lines
    [ lit "You are an expert editor. Help users improve and refine their existing text.";
      lit "                ";
      lit "Available tools:";
      lit "- analyze_text_structure: Analyze current text structure";
      lit "- suggest_improvements: Get targeted improvement suggestions";
      lit "- extract_key_themes: Understand content themes";
      [];
      lit "Focus on clarity, coherence, and effective communication. Format your responses using markdown for better readability." ].

Definition system_prompt_improve : str :=
  lines
    [ lit "You are an expert writing improvement specialist. When asked to improve text, provide ONLY the improved version of the content that should replace the original text in the document.";
      [];
      lit "DO NOT include:";
      lit "- Explanatory text about what you changed or why";
      lit "- Meta-commentary about the improvement process";
      lit "- Markdown headers or formatting (the editor will handle formatting)";
      lit "- Analysis or suggestions - just the improved content";
      [];
      lit "DO provide:";
      lit "- Clean, polished prose that improves upon the original";
      lit "- Natural paragraph breaks using double line breaks";
      lit "- Content that flows seamlessly as if written by the user";
      lit "- Enhanced clarity, engagement, and readability";
      [];
      lit "Available tools:";
      lit "- analyze_text_structure: Analyze text structure and organization";
      lit "- suggest_improvements: Get specific improvement suggestions  ";
      lit "- extract_key_themes: Identify key themes and topics";
      [];
      lit "Focus on producing clean, improved content only." ].

Definition system_prompts : dict str :=
  [ (lit "generate", system_prompt_generate);
    (lit "edit", system_prompt_edit);
    (lit "improve", system_prompt_improve) ].

(** [system_prompts.get(action, system_prompts["generate"])] *)
Definition system_prompt (action : str) : str :=
  match dict_get system_prompts action with
  | Some p => p
  | None => system_prompt_generate
  end.

(** [if context.get(key): user_message += prefix + context[key]] *)
Definition add_if (context : dict str) (key prefix : str) (user_message : str)
  : str :=
  match dict_get context key with
  | Some v => if truthy v then user_message ++ prefix ++ v else user_message
  | None => user_message
  end.

Definition user_message (action content : str) (context : dict str) : str :=
  if str_eqb action (lit "generate") then
    add_if context (lit "length") (lines [ []; lit "**Length:** " ])
      (add_if context (lit "style") (lines [ []; []; lit "**Style:** " ])
         (lit "Please help me generate text based on this prompt: " ++ content))
  else if str_eqb action (lit "edit") then
    add_if context (lit "focus") (lines [ []; []; lit "**Focus on:** " ])
      (lines [ lit "Please help me edit and improve this text:"; []; [] ]
         ++ content)
  else
    add_if context (lit "aspect") (lines [ []; []; lit "**Specific aspect:** " ])
      (lines [ lit "Please help me improve this text:"; []; [] ] ++ content).

(** The two messages built when the state carries none. *)
Definition initial_messages (action content : str) (context : dict str)
  : list Message :=
  [ SystemMessage (system_prompt action);
    HumanMessage (user_message action content context) ].

Definition mock_generate : str :=
  lines
    [ lit "This is a well-crafted piece of writing that demonstrates the capabilities of the AI writing assistant. The content flows naturally and provides valuable information while maintaining an engaging tone throughout.";
      [];
      lit "The writing assistant can adapt to various styles and requirements, ensuring that the generated content meets your specific needs. Whether you're looking for formal academic writing, casual blog posts, or creative storytelling, the system can produce high-quality content.";
      [];
      lit "This example showcases clean, insertable text that integrates seamlessly into your document without requiring additional formatting or editing." ].

Definition mock_improve : str :=
  lines
    [ lit "This represents a significantly enhanced version of your original text, featuring improved clarity, better flow, and more engaging language throughout. The content has been carefully refined to maintain your core message while elevating the overall quality and readability.";
      [];
      lit "The enhanced writing demonstrates stronger transitions between ideas, more precise word choices, and a more compelling narrative structure. Each sentence contributes meaningfully to the overall piece while maintaining consistency in tone and style.";
      [];
      lit "This improved version showcases the writing assistant's ability to transform good content into exceptional prose that resonates more effectively with readers and achieves your communication objectives." ].

Definition mock_other (action : str) : str :=
  (lit "**Mock Response for ") ++
    action ++
    (lines
    [ lit "**";
      [];
      lit "This is a simulated writing assistant response with *proper markdown formatting* for development purposes.";
      [];
      lit "### Key Features";
      (lit "- " ++ [9989%N] ++ lit " Proper message structure");
      (lit "- " ++ [9989%N] ++ lit " Markdown formatting");
      (lit "- " ++ [9989%N] ++ lit " SystemMessage usage");
      [];
      lit "> This demonstrates how responses will be formatted when the API is configured." ]).

Definition mock_response (action : str) : str :=
  if str_eqb action (lit "generate") then mock_generate
  else if str_eqb action (lit "improve") then mock_improve
  else mock_other action.

(** [self.llm.ainvoke(messages)]: the reply of the model (content and
    tool calls of an [AIMessage]) or a raised exception.  [W] is the
    state of the outside world the call reads and changes. *)
Definition gateway (W : Type) : Type :=
  W -> list Message -> W * (exn + str * list ToolCall).

(** [self.llm] and [self.graph]; either may be [None]. *)
Record WritingAgent (W : Type) := {
  llm : option (gateway W);
  graph : bool
}.

(** The body of the [try] block of [agent_node].  A raised exception is
    returned with the value the local [messages] has at that point,
    which the handler reads. *)
Definition agent_node_try {W : Type} (self : WritingAgent W) (w : W)
    (state : WritingState) : W * (exn * list Message + NodeOutput) :=
  let msgs :=
    match messages state with
    | [] => initial_messages (action state) (content state) (context state)
    | _ :: _ => messages state
    end in
  match llm self with
  | Some ainvoke =>
      match ainvoke w msgs with
      | (w', inr (c, tcs)) =>
          (w', inr {| out_messages := msgs ++ [AIMessage c tcs];
                      out_iterations := Some (iterations state + 1)%Z |})
      | (w', inl e) => (w', inl (e, msgs))
      end
  | None =>
      (w, inr {| out_messages :=
                   msgs ++ [AIMessage (mock_response (action state)) []];
                 out_iterations := Some (iterations state + 1)%Z |})
  end.

Definition agent_node {W : Type} (self : WritingAgent W) (w : W)
    (state : WritingState) : W * NodeOutput :=
  match agent_node_try self w state with
  | (w', inr out) => (w', out)
  | (w', inl (e, msgs)) =>
      (w', {| out_messages :=
                msgs ++ [AIMessage (lit "I encountered an error: " ++ e) []];
              out_iterations := Some (iterations state + 1)%Z |})
  end.

Inductive route := Continue | End.

Definition should_continue (state : WritingState) : route :=
  if (max_iterations state <=? iterations state)%Z then End
  else match last_message (messages state) with
       | Some (AIMessage _ (_ :: _)) => Continue
       | _ => End
       end.

(** The graph built by [_initialize_agent]. *)
Inductive node := agent | tools.

Definition entry_point : node := agent.

(** The node run after [n]; [None] is [END]. *)
Definition next_node (n : node) (state : WritingState) : option node :=
  match n with
  | agent =>
      match should_continue state with
      | Continue => Some tools
      | End => None
      end
  | tools => Some agent
  end.

(** The graph runtime: the prebuilt tool node (the value it writes to
    [messages], or an exception) and the bound on steps (25 when the
    caller gives none, as [generate_text] does) with the error raised
    when it is exhausted. *)
Record Runtime := {
  tool_node : list Message -> exn + list Message;
  recursion_limit : nat;
  recursion_error : exn
}.

Definition run_node {W : Type} (rt : Runtime) (self : WritingAgent W)
    (n : node) (w : W) (state : WritingState) : exn + W * NodeOutput :=
  match n with
  | agent => inr (agent_node self w state)
  | tools =>
      match tool_node rt (messages state) with
      | inl e => inl e
      | inr ms => inr (w, {| out_messages := ms; out_iterations := None |})
      end
  end.

(** [graph.astream(state)]: one item per executed node.  [fuel] is the
    number of steps left.  The runtime looks at the step bound before it
    looks for the next node: a run that has used all its steps raises,
    even when no node is left to run. *)
Fixpoint astream_from {W : Type} (rt : Runtime) (self : WritingAgent W)
    (fuel : nat) (n : node) (w : W) (state : WritingState)
  : gen (node * NodeOutput) :=
  match fuel with
  | O => Raise (recursion_error rt)
  | S fuel' =>
      match run_node rt self n w state with
      | inl e => Raise e
      | inr (w', out) =>
          let state' := apply_output state out in
          Yield (n, out)
            (match fuel' with
             | O => Raise (recursion_error rt)
             | S _ =>
                 match next_node n state' with
                 | Some n' => astream_from rt self fuel' n' w' state'
                 | None => Stop
                 end
             end)
      end
  end.

Definition astream {W : Type} (rt : Runtime) (self : WritingAgent W)
    (w : W) (state : WritingState) : gen (node * NodeOutput) :=
  astream_from rt self (recursion_limit rt) entry_point w state.

(** One transition of the graph on configurations (next node, world,
    state). *)
Definition config (W : Type) : Type := (option node * W * WritingState)%type.

Inductive step {W : Type} (rt : Runtime) (self : WritingAgent W)
  : config W -> config W -> Prop :=
| step_run n w state w' out :
    run_node rt self n w state = inr (w', out) ->
    step rt self (Some n, w, state)
      (next_node n (apply_output state out), w', apply_output state out).

Inductive reachable {W : Type} (rt : Runtime) (self : WritingAgent W)
    (c0 : config W) : config W -> Prop :=
| reach_init : reachable rt self c0 c0
| reach_step c c' :
    reachable rt self c0 c -> step rt self c c' -> reachable rt self c0 c'.

(** The fragments streamed for one item of [astream]. *)
Definition stream_words (content : str) : list str :=
  map (fun word => word ++ lit " ") (split content).

Definition fragments_of (item : node * NodeOutput) : list str :=
  match item with
  | (agent, out) =>
      match last_message (out_messages out) with
      | Some (AIMessage c _) => if truthy c then stream_words c else []
      | _ => []
      end
  | (tools, _) => []
  end.

(** [str(e)] of the [AttributeError] raised by [self.graph.astream]
    when [self.graph] is [None]. *)
Definition no_graph_error : exn :=
  lit "'NoneType' object has no attribute 'astream'".

(** The common body of [generate_text], [edit_text] and [improve_text]. *)
Definition stream_action {W : Type} (rt : Runtime) (self : WritingAgent W)
    (act error_prefix : str) (w : W) (text : str)
    (context : option (dict str)) : gen str :=
  try_except
    (let context := match context with None => [] | Some c => c end in
     let initial_state :=
       {| messages := []; content := text; context := context;
          action := act; iterations := 0; max_iterations := 3 |} in
     if graph self
     then for_each (astream rt self w initial_state) fragments_of
     else Raise no_graph_error)
    (fun e => Yield (error_prefix ++ e) Stop).

Definition generate_text {W : Type} (rt : Runtime) (self : WritingAgent W)
    (w : W) (prompt : str) (context : option (dict str)) : gen str :=
  stream_action rt self (lit "generate") (lit "Error generating text: ")
    w prompt context.

Definition edit_text {W : Type} (rt : Runtime) (self : WritingAgent W)
    (w : W) (content : str) (context : option (dict str)) : gen str :=
  stream_action rt self (lit "edit") (lit "Error editing text: ")
    w content context.

Definition improve_text {W : Type} (rt : Runtime) (self : WritingAgent W)
    (w : W) (content : str) (context : option (dict str)) : gen str :=
  stream_action rt self (lit "improve") (lit "Error improving text: ")
    w content context.

Definition is_ready {W : Type} (self : WritingAgent W) : bool := graph self.

End Agent.

(** ** The Studio graph (studio_graph.py): the start of [agent_node] *)

Module Studio.

(** The [generate] and [improve] prompts have the text of agent.py; the
    [edit] prompt differs in the indentation of its second line. *)
Definition system_prompt_generate : str := Agent.system_prompt_generate.

Definition system_prompt_edit : str :=
  lines
    [ lit "You are an expert editor. Help users improve and refine their existing text.";
      lit "        ";
      lit "Available tools:";
      lit "- analyze_text_structure: Analyze current text structure";
      lit "- suggest_improvements: Get targeted improvement suggestions";
      lit "- extract_key_themes: Understand content themes";
      [];
      lit "Focus on clarity, coherence, and effective communication. Format your responses using markdown for better readability." ].

Definition system_prompt_improve : str := Agent.system_prompt_improve.

Definition system_prompts : dict str :=
  [ (lit "generate", system_prompt_generate);
    (lit "edit", system_prompt_edit);
    (lit "improve", system_prompt_improve) ].

Definition system_prompt (action : str) : str :=
  match dict_get system_prompts action with
  | Some p => p
  | None => system_prompt_generate
  end.

Definition user_message (action content : str) (context : dict str) : str :=
  if str_eqb action (lit "generate") then
    Agent.add_if context (lit "length") (lines [ []; lit "**Length:** " ])
      (Agent.add_if context (lit "style") (lines [ []; []; lit "**Style:** " ])
         (lit "Please help me generate text based on this prompt: " ++ content))
  else if str_eqb action (lit "edit") then
    Agent.add_if context (lit "focus") (lines [ []; []; lit "**Focus on:** " ])
      (lines [ lit "Please help me edit and improve this text:"; []; [] ]
         ++ content)
  else
    Agent.add_if context (lit "aspect")
      (lines [ []; []; lit "**Specific aspect:** " ])
      (lines [ lit "Please help me improve this text:"; []; [] ] ++ content).

Definition initial_messages (action content : str) (context : dict str)
  : list Message :=
  [ SystemMessage (system_prompt action);
    HumanMessage (user_message action content context) ].

End Studio.

(** ** The tools (agent.py, [analyze_text_structure] and
    [extract_key_themes]) *)

Module Tools.

Record Analysis := {
  word_count : nat;
  character_count : nat;
  line_count : nat;
  paragraph_count : nat;
  structure : str
}.

(** [json.dumps(analysis, indent=2)] *)
Definition json_dumps (a : Analysis) : str :=
  lines
    [ lit "{";
      lit "  " ++ [34%N] ++ lit "word_count" ++ [34%N] ++ lit ": "
        ++ str_of_nat (word_count a) ++ lit ",";
      lit "  " ++ [34%N] ++ lit "character_count" ++ [34%N] ++ lit ": "
        ++ str_of_nat (character_count a) ++ lit ",";
      lit "  " ++ [34%N] ++ lit "line_count" ++ [34%N] ++ lit ": "
        ++ str_of_nat (line_count a) ++ lit ",";
      lit "  " ++ [34%N] ++ lit "paragraph_count" ++ [34%N] ++ lit ": "
        ++ str_of_nat (paragraph_count a) ++ lit ",";
      lit "  " ++ [34%N] ++ lit "structure" ++ [34%N] ++ lit ": "
        ++ [34%N] ++ structure a ++ [34%N];
      lit "}" ].

Definition analysis (text : str) : Analysis :=
  let text_lines := split_sep [10%N] text in
  let paragraphs :=
    filter (fun p => truthy (strip p)) (split_sep [10%N; 10%N] text) in
  let words := length (split text) in
  let chars := length text in
  {| word_count := words;
     character_count := chars;
     line_count := length text_lines;
     paragraph_count := length paragraphs;
     structure := if 1 <? length paragraphs
                  then lit "multi-paragraph" else lit "single-block" |}.

Definition analyze_text_structure (text : str) : str :=
  if truthy (strip text)
  then lit "Text Analysis: " ++ json_dumps (analysis text)
  else lit "Empty text provided".

(** The case mapping and the character classes of code points outside
    ASCII come from the Unicode database of the interpreter. *)
Record Unicode := {
  uni_lower : str -> str;
  uni_isalnum : char -> bool
}.

Definition is_ascii (c : char) : bool := (c <? 128)%N.

Definition ascii_lower (c : char) : char :=
  if ((65 <=? c) && (c <=? 90))%N then (c + 32)%N else c.

Definition ascii_isalnum (c : char) : bool :=
  ((48 <=? c) && (c <=? 57) || (65 <=? c) && (c <=? 90)
   || (97 <=? c) && (c <=? 122))%N.

(** [s.lower()] *)
Definition lower (U : Unicode) (s : str) : str :=
  if forallb is_ascii s then map ascii_lower s else uni_lower U s.

(** [c.isalnum()] *)
Definition isalnum (U : Unicode) (c : char) : bool :=
  if is_ascii c then ascii_isalnum c else uni_isalnum U c.

Definition common_words : list str :=
  map lit
    [ "the"; "and"; "or"; "but"; "in"; "on"; "at"; "to"; "for"; "of";
      "with"; "by"; "a"; "an"; "is"; "are"; "was"; "were"; "be"; "been";
      "have"; "has"; "had"; "do"; "does"; "did"; "will"; "would"; "could";
      "should"; "may"; "might"; "can"; "this"; "that"; "these";
      "those" ]%string.

Definition is_common (w : str) : bool := existsb (str_eqb w) common_words.

(** [d[k] = d.get(k, 0) + 1] on a dictionary kept in insertion order. *)
Fixpoint dict_incr (d : dict nat) (k : str) : dict nat :=
  match d with
  | [] => [(k, 1)]
  | (k', v) :: d' =>
      if str_eqb k' k then (k', v + 1) :: d' else (k', v) :: dict_incr d' k
  end.

Definition clean_word (U : Unicode) (word : str) : str :=
  filter (isalnum U) word.

Definition keep_word (clean : str) : bool :=
  (3 <? length clean) && negb (is_common clean).

(** The loop that fills [word_freq]. *)
Definition count_words (U : Unicode) (words : list str) : dict nat :=
  fold_left
    (fun word_freq word =>
       let clean := clean_word U word in
       if keep_word clean then dict_incr word_freq clean else word_freq)
    words [].

(** [sorted(items, key=lambda x: x[1], reverse=True)]: the sort is
    stable, so items with equal counts keep their order. *)
Fixpoint insert_desc (x : str * nat) (l : list (str * nat))
  : list (str * nat) :=
  match l with
  | [] => [x]
  | y :: l' => if snd y <=? snd x then x :: l else y :: insert_desc x l'
  end.

Definition sorted_desc (items : list (str * nat)) : list (str * nat) :=
  fold_right insert_desc [] items.

Definition top_themes (U : Unicode) (text : str) : list (str * nat) :=
  firstn 5 (sorted_desc (count_words U (split (lower U text)))).

(** [repr] of a list of strings made of alphanumeric characters. *)
Definition repr_list (l : list str) : str :=
  lit "[" ++ join (lit ", ") (map (fun s => lit "'" ++ s ++ lit "'") l)
    ++ lit "]".

Definition extract_key_themes (U : Unicode) (text : str) : str :=
  if truthy (strip text)
  then lit "Key themes identified: "
         ++ repr_list (map fst (top_themes U text))
  else lit "No themes found in empty text".

(** [suggest_improvements(text, focus="general")]; [None] is the
    omitted argument. *)
Definition suggest_improvements (text : str) (focus : option str) : str :=
  let focus := match focus with None => lit "general" | Some f => f end in
  let suggestions :=
    if str_eqb focus (lit "clarity") then
      [ lit "Consider breaking long sentences into shorter ones";
        lit "Use active voice where possible";
        lit "Replace complex words with simpler alternatives" ]
    else if str_eqb focus (lit "structure") then
      [ lit "Add clear topic sentences to paragraphs";
        lit "Use transitional phrases between ideas";
        lit "Consider reorganizing for logical flow" ]
    else if str_eqb focus (lit "engagement") then
      [ lit "Add compelling examples or anecdotes";
        lit "Use questions to engage readers";
        lit "Vary sentence length and structure" ]
    else
      [ lit "Check for grammar and spelling errors";
        lit "Ensure consistent tone throughout";
        lit "Remove unnecessary words and phrases" ] in
  lit "Improvement suggestions for " ++ focus ++ lit ": "
    ++ join (lit "; ") suggestions.

End Tools.

(** ** The SSE framing (main.py) *)

Module Main.

(** The dictionaries serialised on the wire, by their [type]:
    [<action_type>_start], [<action_type>_chunk] with the fragment as
    [content], [<action_type>_complete], and [error] with the text of
    the exception in its message. *)
Inductive event :=
| start_event (action_type : str)
| chunk_event (action_type : str) (content : str)
| complete_event (action_type : str)
| error_event (action_type : str) (e : exn).

Definition event_type (ev : event) : str :=
  match ev with
  | start_event a => a ++ lit "_start"
  | chunk_event a _ => a ++ lit "_chunk"
  | complete_event a => a ++ lit "_complete"
  | error_event _ _ => lit "error"
  end.

(** The part of [create_sse_stream] after the start event. *)
Fixpoint sse_body (generator : gen str) (action_type : str) : list event :=
  match generator with
  | Yield chunk k =>
      if truthy chunk
      then chunk_event action_type chunk :: sse_body k action_type
      else sse_body k action_type
  | Stop => [complete_event action_type]
  | Raise e => [error_event action_type e]
  end.

Definition create_sse_stream (generator : gen str) (action_type : str)
  : list event :=
  start_event action_type :: sse_body generator action_type.

Record GenerateRequest := { prompt : str; generate_context : option (dict str) }.
Record EditRequest := { edit_content : str; edit_context : option (dict str) }.
Record ImproveRequest := {
  improve_content : str;
  improve_context : option (dict str)
}.

(** [request.context or {}] *)
Definition or_empty (context : option (dict str)) : option (dict str) :=
  match context with
  | None => Some []
  | Some c => Some c
  end.

Definition generate_text {W : Type} (rt : Agent.Runtime)
    (writing_agent : Agent.WritingAgent W) (w : W) (request : GenerateRequest)
  : list event :=
  create_sse_stream
    (Agent.generate_text rt writing_agent w (prompt request)
       (or_empty (generate_context request)))
    (lit "generation").

Definition edit_text {W : Type} (rt : Agent.Runtime)
    (writing_agent : Agent.WritingAgent W) (w : W) (request : EditRequest)
  : list event :=
  create_sse_stream
    (Agent.edit_text rt writing_agent w (edit_content request)
       (or_empty (edit_context request)))
    (lit "edit").

Definition improve_text {W : Type} (rt : Agent.Runtime)
    (writing_agent : Agent.WritingAgent W) (w : W) (request : ImproveRequest)
  : list event :=
  create_sse_stream
    (Agent.improve_text rt writing_agent w (improve_content request)
       (or_empty (improve_context request)))
    (lit "improve").

Definition is_start (ev : event) : bool :=
  match ev with start_event _ => true | _ => false end.
Definition is_chunk (ev : event) : bool :=
  match ev with chunk_event _ _ => true | _ => false end.
Definition is_complete (ev : event) : bool :=
  match ev with complete_event _ => true | _ => false end.
Definition is_error (ev : event) : bool :=
  match ev with error_event _ _ => true | _ => false end.
Definition is_terminal (ev : event) : bool := is_complete ev || is_error ev.

(** The contents of the chunk events of a stream, in order. *)
Fixpoint chunk_contents (evs : list event) : list str :=
  match evs with
  | [] => []
  | chunk_event _ c :: evs' => c :: chunk_contents evs'
  | _ :: evs' => chunk_contents evs'
  end.

(** The body of the [/health] response. *)
Record HealthResponse := { status : str; agent_ready : bool }.

Definition health_check {W : Type} (writing_agent : Agent.WritingAgent W)
  : HealthResponse :=
  {| status := lit "healthy"; agent_ready := Agent.is_ready writing_agent |}.

End Main.

(** ** The Studio graph (studio_graph.py): the nodes and the graph *)

Module StudioGraph.

Definition mock_generate_history : str :=
  lines
    [ lit "The study of history reveals the intricate tapestry of human civilization, woven through countless decisions, conflicts, and innovations that have shaped our world. From the rise and fall of ancient empires to the technological revolutions that continue to transform society, history provides essential context for understanding contemporary challenges and opportunities.";
      [];
      lit "Historical analysis offers valuable insights into patterns of human behavior, the consequences of political decisions, and the forces that drive social change. By examining past events, we can better appreciate the complexity of modern issues and make more informed choices about our collective future.";
      [];
      lit "The preservation and study of historical records ensures that future generations can learn from both the triumphs and mistakes of those who came before them, fostering a deeper appreciation for the ongoing human experience." ].

Definition mock_generate_technology : str :=
  lines
    [ lit "Technology has fundamentally transformed the way we live, work, and communicate in the modern era. From smartphones that connect us instantly across vast distances to artificial intelligence systems that assist with complex problem-solving, technological innovation continues to accelerate at an unprecedented pace.";
      [];
      lit "The digital revolution has created new opportunities for creativity, collaboration, and learning while also presenting challenges related to privacy, security, and the future of work. As we navigate this rapidly evolving landscape, it becomes increasingly important to thoughtfully consider both the benefits and implications of emerging technologies.";
      [];
      lit "Understanding and adapting to technological change remains essential for individuals and organizations seeking to thrive in an interconnected, digitally-driven world." ].

Definition mock_generate_other : str :=
  (lines
    [ lit "This is a thoughtfully composed piece of writing that addresses your specific request. The content has been crafted to meet your requirements while maintaining clarity and engagement throughout.";
      [];
      lit "The writing flows naturally from one idea to the next, building upon key concepts and providing readers with valuable insights. Each paragraph contributes meaningfully to the overall message while maintaining a consistent tone and style.";
      [];
      lit "This approach ensures that the final piece serves its intended purpose effectively, whether for informational, persuasive, or creative objectives. The content can be easily integrated into your broader work or stand alone as a complete piece." ]).

Definition mock_edit : str :=
  (lines
    [ lit "# Editorial Suggestions";
      [];
      lit "## Original Text Analysis";
      [];
      lit "I've reviewed your text and identified several areas for improvement.";
      [];
      lit "### Structure Improvements";
      [];
      lit "- **Paragraph organization:** Consider reorganizing for better flow";
      lit "- **Transitions:** Add connecting phrases between ideas";
      lit "- **Clarity:** Some sentences could be simplified";
      [];
      lit "### Content Suggestions";
      [];
      lit "1. **Opening:** Strengthen the introduction with a hook";
      lit "2. **Body:** Expand on key points with examples";
      lit "3. **Conclusion:** Summarize main takeaways";
      [];
      lit "### Revised Version";
      [];
      lit "Here's a sample of how your text might be improved:";
      [];
      lit "> [Original text would be shown here with suggested edits highlighted]";
      [];
      lit "### Next Steps";
      [];
      lit "- Review the suggested changes";
      lit "- Consider the overall message clarity";
      lit "- Ensure consistent tone throughout";
      [];
      lit "---";
      lit "*Analysis by Writing Agent (Mock Mode)*" ]).

Definition mock_improve_art : str :=
  lines
    [ lit "Describing art involves delving into its myriad aspects: the visual elements, the emotional response it evokes, its historical context, and the artist's intentions, among others. To craft a comprehensive piece on this topic, we can structure our text around several key themes.";
      [];
      (lit "Introduction to Art - Definition and Scope: Begin by defining art in broad terms, acknowledging its diverse forms" ++ [8212%N] ++ lit "painting, sculpture, literature, music, and more. Emphasize art's role in human expression and cultural identity.");
      [];
      lit "Purpose of Art: Discuss why art is created, touching on themes of expression, communication, societal reflection, and aesthetic pleasure.";
      [];
      lit "Visual Elements of Art - Color, Form, Line, Shape, Space, Texture, and Value: Explore these foundational elements that artists use to create their pieces. Describe how these elements interact and how they contribute to the overall impression of the artwork.";
      [];
      lit "Emotional and Intellectual Responses - Personal Interpretation: Discuss how art is subjective and can evoke different emotions and thoughts in each viewer. Mention the role of personal experiences and cultural background in interpretation.";
      [];
      lit "Historical Context and Evolution - Art Movements and Styles: Briefly chart the evolution of art, mentioning key movements such as Renaissance, Impressionism, and Modernism, and how they reflected or influenced societal changes.";
      [];
      lit "The Role of the Critic and the Audience - Art Criticism: Introduce the concept of art criticism and its role in shaping public perception and understanding of art.";
      [];
      lit "Audience Engagement: Discuss how different audiences engage with art and the importance of accessibility in art appreciation." ].

Definition mock_improve_technology : str :=
  lines
    [ lit "Technology has fundamentally transformed how we live, work, and communicate in the modern era. From smartphones that connect us instantly across vast distances to artificial intelligence systems that assist with complex problem-solving, technological innovation continues to accelerate at an unprecedented pace.";
      [];
      lit "The digital revolution has created unprecedented opportunities for creativity, collaboration, and learning while simultaneously presenting significant challenges related to privacy, security, and the future of employment. As we navigate this rapidly evolving technological landscape, it becomes increasingly crucial to thoughtfully consider both the remarkable benefits and potential implications of emerging technologies.";
      [];
      lit "Understanding and effectively adapting to technological change remains absolutely essential for individuals and organizations seeking to thrive in our interconnected, digitally-driven world. Those who embrace technological literacy and maintain adaptability will be best positioned for success in the coming decades." ].

Definition mock_improve_other : str :=
  lines
    [ lit "This thoughtfully composed piece of writing effectively addresses your specific request while demonstrating enhanced clarity and engagement throughout. The content has been carefully refined to meet your requirements while maintaining superior readability and flow.";
      [];
      lit "The writing progresses naturally from one compelling idea to the next, building upon key concepts and providing readers with valuable, actionable insights. Each paragraph contributes meaningfully to the overall message while maintaining consistent tone and elevated style.";
      [];
      lit "This refined approach ensures that the final piece serves its intended purpose with maximum effectiveness, whether for informational, persuasive, or creative objectives. The improved content integrates seamlessly into your broader work while standing confidently as a complete, polished piece." ].

(** The [style] and [length] read from [context] in the [generate]
    branch are not used afterwards. *)
Definition _generate_mock_response (U : Tools.Unicode)
    (action content : str) (context : dict str) : str :=
  if str_eqb action (lit "generate") then
    if contains (lit "history") (Tools.lower U content)
    then mock_generate_history
    else if contains (lit "technology") (Tools.lower U content)
    then mock_generate_technology
    else mock_generate_other
  else if str_eqb action (lit "edit") then mock_edit
  else
    if contains (lit "art") (Tools.lower U content)
       && contains (lit "describe") (Tools.lower U content)
    then mock_improve_art
    else if contains (lit "technology") (Tools.lower U content)
    then mock_improve_technology
    else mock_improve_other.

(** The content of the message that replaces a failed call. *)
Definition api_error_text (e : exn) (mock : str) : str :=
  ([9888%N] ++ [65039%N] ++ lit " **API Error:** ") ++ e
    ++ lines [ []; []; lit "Falling back to mock response:"; []; [] ]
    ++ mock.

(** [agent_node]; [llm] is the module-level client, [None] without an
    API key. *)
Definition agent_node {W : Type} (llm : option (Agent.gateway W))
    (U : Tools.Unicode) (w : W) (state : WritingState) : W * NodeOutput :=
  let msgs :=
    match messages state with
    | [] => Studio.initial_messages (action state) (content state)
              (context state)
    | _ :: _ => messages state
    end in
  let mock :=
    _generate_mock_response U (action state) (content state) (context state) in
  match llm with
  | Some invoke =>
      match invoke w msgs with
      | (w', inr (c, tcs)) =>
          (w', {| out_messages := msgs ++ [AIMessage c tcs];
                  out_iterations := Some (iterations state + 1)%Z |})
      | (w', inl e) =>
          (w', {| out_messages := msgs ++ [AIMessage (api_error_text e mock) []];
                  out_iterations := Some (iterations state + 1)%Z |})
      end
  | None =>
      (w, {| out_messages := msgs ++ [AIMessage mock []];
             out_iterations := Some (iterations state + 1)%Z |})
  end.

Definition should_continue (state : WritingState) : Agent.route :=
  if (max_iterations state <=? iterations state)%Z then Agent.End
  else match last_message (messages state) with
       | Some (AIMessage _ (_ :: _)) => Agent.Continue
       | _ => Agent.End
       end.

(** The graph: entry point [agent], [agent] to [tools] or [END] by
    [should_continue], [tools] back to [agent]. *)
Definition next_node (n : Agent.node) (state : WritingState)
  : option Agent.node :=
  match n with
  | Agent.agent =>
      match should_continue state with
      | Agent.Continue => Some Agent.tools
      | Agent.End => None
      end
  | Agent.tools => Some Agent.agent
  end.

Definition run_node {W : Type} (rt : Agent.Runtime)
    (llm : option (Agent.gateway W)) (U : Tools.Unicode) (n : Agent.node)
    (w : W) (state : WritingState) : exn + W * NodeOutput :=
  match n with
  | Agent.agent => inr (agent_node llm U w state)
  | Agent.tools =>
      match Agent.tool_node rt (messages state) with
      | inl e => inl e
      | inr ms => inr (w, {| out_messages := ms; out_iterations := None |})
      end
  end.

(** A run of the compiled graph, one item per executed node; the step
    bound is looked at before the next node, as in [Agent.astream_from]. *)
Fixpoint astream_from {W : Type} (rt : Agent.Runtime)
    (llm : option (Agent.gateway W)) (U : Tools.Unicode) (fuel : nat)
    (n : Agent.node) (w : W) (state : WritingState)
  : gen (Agent.node * NodeOutput) :=
  match fuel with
  | O => Raise (Agent.recursion_error rt)
  | S fuel' =>
      match run_node rt llm U n w state with
      | inl e => Raise e
      | inr (w', out) =>
          let state' := apply_output state out in
          Yield (n, out)
            (match fuel' with
             | O => Raise (Agent.recursion_error rt)
             | S _ =>
                 match next_node n state' with
                 | Some n' => astream_from rt llm U fuel' n' w' state'
                 | None => Stop
                 end
             end)
      end
  end.

End StudioGraph.

(** ** Stand-ins for the collaborators, used to run the model *)

Module Doubles.

Definition a_tool_call : ToolCall :=
  {| tc_name := lit "analyze_text_structure";
     tc_args := [(lit "text", lit "some text")];
     tc_id := lit "call_1" |}.

(** A model that answers every call with a tool request. *)
Definition gw_tool : Agent.gateway unit :=
  fun w _ => (w, inr ([], [a_tool_call])).

(** A model whose call raises. *)
Definition gw_fail : Agent.gateway unit :=
  fun w _ => (w, inl (lit "boom")).

(** A model that answers with a fixed text and no tool request. *)
Definition gw_say (text : str) : Agent.gateway unit :=
  fun w _ => (w, inr (text, [])).

(** A tool node that answers each request of the last message. *)
Definition tool_node_ok (ms : list Message) : exn + list Message :=
  match last_message ms with
  | Some (AIMessage _ tcs) =>
      inr (map (fun tc => ToolMessage (lit "Text Analysis: {}") (tc_id tc)) tcs)
  | _ => inr []
  end.

(** A tool node that raises. *)
Definition tool_node_fail (ms : list Message) : exn + list Message :=
  inl (lit "tool node failed").

Definition rt_tool_fails : Agent.Runtime :=
  {| Agent.tool_node := tool_node_fail;
     Agent.recursion_limit := 25;
     Agent.recursion_error := lit "Recursion limit of 25 reached" |}.

Definition rt25 : Agent.Runtime :=
  {| Agent.tool_node := tool_node_ok;
     Agent.recursion_limit := 25;
     Agent.recursion_error := lit "Recursion limit of 25 reached" |}.

Definition agent_with (gw : Agent.gateway unit) : Agent.WritingAgent unit :=
  {| Agent.llm := Some gw; Agent.graph := true |}.

Definition agent_mock : Agent.WritingAgent unit :=
  {| Agent.llm := None; Agent.graph := true |}.

(** The agent after a failed [_initialize_agent]. *)
Definition agent_no_graph : Agent.WritingAgent unit :=
  {| Agent.llm := None; Agent.graph := false |}.

Definition state0 (act : str) (n : Z) : WritingState :=
  {| messages := []; content := lit "a prompt"; context := [];
     action := act; iterations := 0; max_iterations := n |}.

(** Tables that leave the code points outside ASCII alone. *)
Definition ascii_only : Tools.Unicode :=
  {| Tools.uni_lower := fun s => s; Tools.uni_isalnum := fun _ => false |}.

End Doubles.

(** ** Vocabulary of the statements *)

Module Spec.

Definition blank (s : str) : Prop := Forall (fun c => isspace c = true) s.

(** A token: not empty, no whitespace inside. *)
Definition token (t : str) : Prop :=
  t <> [] /\ Forall (fun c => isspace c = false) t.

Definition starts_blank (s : str) : Prop :=
  match s with
  | [] => True
  | c :: _ => isspace c = true
  end.

(** [tokenized s toks]: [s] is the tokens [toks], in order, separated
    and surrounded by runs of whitespace. *)
Inductive tokenized : str -> list str -> Prop :=
| tokenized_nil ws : blank ws -> tokenized ws []
| tokenized_cons ws t rest toks :
    blank ws -> token t -> starts_blank rest -> tokenized rest toks ->
    tokenized (ws ++ t ++ rest) (t :: toks).

(** Number of occurrences of [k] in [toks]. *)
Definition freq (toks : list str) (k : str) : nat :=
  length (filter (str_eqb k) toks).

(** Position of the first occurrence of [k] in [toks]. *)
Fixpoint first_pos (toks : list str) (k : str) : nat :=
  match toks with
  | [] => 0
  | t :: toks' => if str_eqb t k then 0 else S (first_pos toks' k)
  end.

(** [a] is ranked before [b]: more frequent, or as frequent and seen
    first. *)
Definition outranks (toks : list str) (a b : str) : Prop :=
  freq toks b < freq toks a
  \/ (freq toks a = freq toks b /\ first_pos toks a < first_pos toks b).

(** The tokens that [extract_key_themes] counts, in order of
    occurrence. *)
Definition theme_tokens (U : Tools.Unicode) (text : str) : list str :=
  filter Tools.keep_word
    (map (Tools.clean_word U) (split (Tools.lower U text))).

Definition node_eqb (a b : Agent.node) : bool :=
  match a, b with
  | Agent.agent, Agent.agent => true
  | Agent.tools, Agent.tools => true
  | _, _ => false
  end.

(** The nodes a run of the graph executed, in order. *)
Definition nodes_run (tr : gen (Agent.node * NodeOutput)) : list Agent.node :=
  map fst (yielded tr).

(** How often node [n] ran. *)
Definition visits (n : Agent.node) (tr : gen (Agent.node * NodeOutput)) : nat :=
  length (filter (node_eqb n) (nodes_run tr)).

(** The run agent, tools, agent, ..., agent with [k] tool dispatches. *)
Fixpoint loop_nodes (k : nat) : list Agent.node :=
  match k with
  | O => [Agent.agent]
  | S k' => Agent.agent :: Agent.tools :: loop_nodes k'
  end.

(** The run reached [END]: the stream stopped without an exception. *)
Definition reaches_end {A : Type} (tr : gen A) : Prop := raised tr = None.

(** Every call of the model returns a message with a tool request. *)
Definition always_requests_tools {W : Type} (gw : Agent.gateway W) : Prop :=
  forall w ms, exists w' c tcs, gw w ms = (w', inr (c, tcs)) /\ tcs <> [].

(** Agent visits still allowed in a state, and a step bound that lets
    every run from node [n] reach [END]. *)
Definition slack (st : WritingState) : Z :=
  Z.max 1 (max_iterations st - iterations st).

Definition need (n : Agent.node) (st : WritingState) : Z :=
  match n with
  | Agent.agent => 2 * slack st
  | Agent.tools => 2 * slack st + 1
  end.

(** The order of the sorted items: by descending count, and by the
    order [before] among equal counts. *)
Definition ranked_before (before : str * nat -> str * nat -> Prop)
    (a b : str * nat) : Prop :=
  snd b < snd a \/ (snd a = snd b /\ before a b).

Definition tool_node_total (rt : Agent.Runtime) : Prop :=
  forall ms, exists ms', Agent.tool_node rt ms = inr ms'.

(** *** The words of [extract_key_themes], read off the text *)

(** [c'] is the lower-case form of the ASCII character [c]: the capital
    letters [A] to [Z] (65 to 90) go to the small letters, 32 further;
    every other character stays. *)
Definition lowers (c c' : char) : Prop :=
  ((65 <= c <= 90)%N /\ c' = (c + 32)%N)
  \/ (~ (65 <= c <= 90)%N /\ c' = c).

Definition ascii (s : str) : Prop := Forall (fun c => (c < 128)%N) s.

(** [lowered] is [text] in lower case; outside ASCII the case mapping is
    the one of the interpreter. *)
Definition lowercase_of (U : Tools.Unicode) (text lowered : str) : Prop :=
  (ascii text /\ Forall2 lowers text lowered)
  \/ (~ ascii text /\ lowered = Tools.uni_lower U text).

(** A letter or a digit. *)
Definition alnum_char (U : Tools.Unicode) (c : char) : Prop :=
  ((48 <= c <= 57)%N \/ (65 <= c <= 90)%N \/ (97 <= c <= 122)%N)
  \/ ((128 <= c)%N /\ Tools.uni_isalnum U c = true).

(** [select P l l']: [l'] is [l] without the elements that fail [P]. *)
Inductive select {A : Type} (P : A -> Prop) : list A -> list A -> Prop :=
| select_nil : select P [] []
| select_keep x l l' : P x -> select P l l' -> select P (x :: l) (x :: l')
| select_drop x l l' : ~ P x -> select P l l' -> select P (x :: l) l'.

Definition stop_word (t : str) : Prop := In t Tools.common_words.

(** [toks] are the tokens of [text] that count as themes: the text in
    lower case, cut at whitespace, each token reduced to its letters and
    digits, without the tokens of at most three characters and the stop
    words. *)
Definition theme_tokens_of (U : Tools.Unicode) (text : str)
    (toks : list str) : Prop :=
  exists lowered words cleaned,
    lowercase_of U text lowered
    /\ tokenized lowered words
    /\ Forall2 (select (alnum_char U)) words cleaned
    /\ select (fun t => 3 < length t /\ ~ stop_word t) cleaned toks.

(** [ranked] ranks the distinct tokens of [toks]. *)
Definition ranking (toks ranked : list str) : Prop :=
  NoDup ranked
  /\ (forall k, In k ranked <-> In k toks)
  /\ StronglySorted (outranks toks) ranked.

(** *** The pieces of a text between separators *)

(** [pieces sep s l]: [l] are the pieces of [s] between the occurrences
    of [sep], each cut at the first occurrence that follows the one
    before. *)
Inductive pieces (sep : str) : str -> list str -> Prop :=
| pieces_last s :
    (forall pre post, s <> pre ++ sep ++ post) -> pieces sep s [s]
| pieces_cut b rest l :
    (forall pre post,
        b ++ sep ++ rest = pre ++ sep ++ post -> length b <= length pre) ->
    pieces sep rest l ->
    pieces sep (b ++ sep ++ rest) (b :: l).

(** Reading a decimal numeral. *)
Fixpoint unlit (s : str) : string :=
  match s with
  | [] => EmptyString
  | c :: s' => String (ascii_of_N c) (unlit s')
  end.

Definition nat_of_str (s : str) : option nat :=
  option_map Nat.of_uint (NilZero.uint_of_string (unlit s)).

(** The report of [analyze_text_structure] for the five values. *)
Definition report_text (words chars text_lines paragraphs : nat)
    (structure : str) : str :=
  lit "Text Analysis: "
  ++ lines
       [ lit "{";
         lit "  " ++ [34%N] ++ lit "word_count" ++ [34%N] ++ lit ": "
           ++ str_of_nat words ++ lit ",";
         lit "  " ++ [34%N] ++ lit "character_count" ++ [34%N] ++ lit ": "
           ++ str_of_nat chars ++ lit ",";
         lit "  " ++ [34%N] ++ lit "line_count" ++ [34%N] ++ lit ": "
           ++ str_of_nat text_lines ++ lit ",";
         lit "  " ++ [34%N] ++ lit "paragraph_count" ++ [34%N] ++ lit ": "
           ++ str_of_nat paragraphs ++ lit ",";
         lit "  " ++ [34%N] ++ lit "structure" ++ [34%N] ++ lit ": "
           ++ [34%N] ++ structure ++ [34%N];
         lit "}" ].

(** What the run of a request failed with, if it failed. *)
Definition failure {W : Type} (rt : Agent.Runtime)
    (self : Agent.WritingAgent W) (w : W) (st : WritingState) : option exn :=
  if Agent.graph self then raised (Agent.astream rt self w st)
  else Some Agent.no_graph_error.

(** Two ASCII characters that differ at most in case. *)
Definition same_letter (a b : char) : Prop :=
  exists c, lowers a c /\ lowers b c.

(** The keys of [context] an action reads. *)
Definition relevant_keys (action : str) : list str :=
  if str_eqb action (lit "generate") then [lit "style"; lit "length"]
  else if str_eqb action (lit "edit") then [lit "focus"]
  else [lit "aspect"].

(** A key that is missing or has an empty value. *)
Definition unset (context : dict str) (key : str) : Prop :=
  dict_get context key = None \/ dict_get context key = Some [].

Definition other_node (n : Agent.node) : Agent.node :=
  match n with
  | Agent.agent => Agent.tools
  | Agent.tools => Agent.agent
  end.

(** The nodes [l] alternate, starting with [n]. *)
Fixpoint alternates (n : Agent.node) (l : list Agent.node) : bool :=
  match l with
  | [] => true
  | m :: l' => node_eqb n m && alternates (other_node n) l'
  end.

(** A text of ASCII characters only. *)
Definition ascii_text (s : str) : bool := forallb Tools.is_ascii s.

(** The state a generator of the agent starts from. *)
Definition request_state (act text : str) (ctx : option (dict str))
  : WritingState :=
  {| messages := []; content := text;
     context := match ctx with None => [] | Some c => c end;
     action := act; iterations := 0; max_iterations := 3 |}.

End Spec.

Import Spec.

(** * Properties *)

(** ** Strings *)

Lemma str_eqb_eq (a b : str) : str_eqb a b = true <-> a = b.
Proof.
  revert b; induction a as [|x a IH]; intros [|y b]; simpl; split;
    try congruence; try discriminate.
  - intros H. apply andb_true_iff in H as [Hx Hab].
    apply N.eqb_eq in Hx. apply IH in Hab. congruence.
  - intros H. injection H as -> ->. apply andb_true_iff. split.
    + apply N.eqb_refl.
    + now apply IH.
Qed.

Lemma str_eqb_refl (a : str) : str_eqb a a = true.
Proof. now apply str_eqb_eq. Qed.

Lemma str_eqb_neq (a b : str) : str_eqb a b = false <-> a <> b.
Proof.
  split.
  - intros H E. apply str_eqb_eq in E. congruence.
  - intros H. destruct (str_eqb a b) eqn:E; [|reflexivity].
    apply str_eqb_eq in E. contradiction.
Qed.

Lemma str_eqb_sym (a b : str) : str_eqb a b = str_eqb b a.
Proof.
  destruct (str_eqb a b) eqn:E.
  - apply str_eqb_eq in E. subst. symmetry. apply str_eqb_refl.
  - symmetry. apply str_eqb_neq. apply str_eqb_neq in E. congruence.
Qed.

Lemma lstrip_blank (s : str) : blank s -> lstrip s = [].
Proof.
  induction 1 as [|c s Hc _ IH]; simpl; [reflexivity|]. now rewrite Hc.
Qed.

Lemma lstrip_nil_blank (s : str) : lstrip s = [] -> blank s.
Proof.
  induction s as [|c s IH]; simpl; intros H.
  - constructor.
  - destruct (isspace c) eqn:Hc; [|discriminate].
    constructor; [assumption | apply IH; assumption].
Qed.

Lemma blank_app (a b : str) : blank (a ++ b) <-> blank a /\ blank b.
Proof. apply Forall_app. Qed.

Lemma lstrip_suffix (s : str) : exists ws, blank ws /\ s = ws ++ lstrip s.
Proof.
  induction s as [|c s (ws & Hws & E)]; simpl.
  - exists []. split; [constructor|reflexivity].
  - destruct (isspace c) eqn:Hc.
    + exists (c :: ws). split; [constructor; assumption|].
      simpl. now rewrite <- E.
    + exists []. split; [constructor|reflexivity].
Qed.

(** [text.strip()] is empty exactly for a text of whitespace only. *)
Lemma strip_truthy_false (s : str) : truthy (strip s) = false <-> blank s.
Proof.
  unfold strip, rstrip.
  split.
  - intros H.
    destruct (rev (lstrip (rev (lstrip s)))) as [|x r] eqn:E; [|discriminate].
    apply (f_equal (@rev _)) in E. rewrite rev_involutive in E. simpl in E.
    apply lstrip_nil_blank in E.
    apply Forall_rev in E. rewrite rev_involutive in E.
    destruct (lstrip_suffix s) as (ws & Hws & Es).
    rewrite Es. apply blank_app. split; assumption.
  - intros H. rewrite (lstrip_blank H). reflexivity.
Qed.

Lemma strip_truthy_true (s : str) : truthy (strip s) = true <-> ~ blank s.
Proof.
  split.
  - intros H Hb. apply strip_truthy_false in Hb. congruence.
  - intros H. destruct (truthy (strip s)) eqn:E; [reflexivity|].
    apply strip_truthy_false in E. contradiction.
Qed.

Lemma tokenized_space (c : char) (s : str) (toks : list str) :
  isspace c = true -> tokenized s toks -> tokenized (c :: s) toks.
Proof.
  intros Hc H. destruct H as [ws Hws | ws t rest toks Hws Ht Hr Hrest].
  - apply tokenized_nil. constructor; assumption.
  - apply (tokenized_cons (ws := c :: ws)); auto. constructor; assumption.
Qed.

(** [split] returns the whitespace-delimited tokens of its argument. *)
Lemma split_tokenized (s : str) : tokenized s (split s).
Proof.
  induction s as [|c s IH]; simpl.
  - apply tokenized_nil. constructor.
  - destruct (isspace c) eqn:Hc.
    + now apply tokenized_space.
    + destruct s as [|d s'].
      * apply (tokenized_cons (ws := []) (t := [c]) (rest := [])).
        -- constructor.
        -- split; [discriminate|]. repeat constructor. assumption.
        -- exact I.
        -- apply tokenized_nil. constructor.
      * destruct (isspace d) eqn:Hd.
        -- apply (tokenized_cons (ws := []) (t := [c]) (rest := d :: s')).
           ++ constructor.
           ++ split; [discriminate|]. repeat constructor. assumption.
           ++ exact Hd.
           ++ exact IH.
        -- remember (split (d :: s')) as toks eqn:Etoks.
           remember (d :: s') as s eqn:Es.
           destruct IH as [ws Hws | ws t rest toks Hws Ht Hr Hrest].
           ++ subst ws. inversion Hws; subst. congruence.
           ++ destruct ws as [|x ws].
              ** simpl in Es.
                 apply (tokenized_cons (ws := []) (t := c :: t) (rest := rest));
                   [constructor | | assumption | assumption].
                 destruct Ht as [_ Ht]. split; [discriminate|].
                 constructor; assumption.
              ** simpl in Es. injection Es as -> _.
                 inversion Hws; subst. congruence.
Qed.

Lemma tokenized_tokens (s : str) (toks : list str) :
  tokenized s toks -> Forall token toks.
Proof. induction 1; constructor; assumption. Qed.

Lemma split_tokens (s : str) : Forall token (split s).
Proof. exact (tokenized_tokens (split_tokenized s)). Qed.

Lemma tokenized_nil_blank (s : str) : tokenized s [] -> blank s.
Proof. intros H. inversion H. assumption. Qed.

Lemma split_nil_blank (s : str) : split s = [] <-> blank s.
Proof.
  split.
  - intros H. apply tokenized_nil_blank. rewrite <- H. apply split_tokenized.
  - induction 1 as [|c s Hc _ IH]; simpl; [reflexivity|]. now rewrite Hc.
Qed.

Lemma split_blank_app (ws s : str) : blank ws -> split (ws ++ s) = split s.
Proof.
  induction 1 as [|c ws Hc _ IH]; [reflexivity|].
  cbn [app split]. now rewrite Hc.
Qed.

Lemma split_token_app (t rest : str) :
  token t -> starts_blank rest -> split (t ++ rest) = t :: split rest.
Proof.
  intros [Hne Hns] Hrest. induction t as [|c t IH]; [congruence|].
  inversion Hns as [|? ? Hc Ht]; subst.
  destruct t as [|d t'].
  - destruct rest as [|x rest]; simpl in *.
    + now rewrite Hc.
    + now rewrite Hc, Hrest.
  - inversion Ht as [|? ? Hd _]; subst.
    change ((c :: d :: t') ++ rest) with (c :: (d :: t') ++ rest).
    change (split (c :: (d :: t') ++ rest))
      with (if isspace c then split ((d :: t') ++ rest)
            else if isspace d then [c] :: split ((d :: t') ++ rest)
                 else match split ((d :: t') ++ rest) with
                      | [] => [[c]]
                      | w :: ws => (c :: w) :: ws
                      end).
    rewrite Hc, Hd, IH; [reflexivity | discriminate | assumption].
Qed.

(** The whitespace-delimited tokens of a text are those of [split]. *)
Lemma tokenized_split (s : str) (toks : list str) :
  tokenized s toks <-> toks = split s.
Proof.
  split; [|intros ->; apply split_tokenized].
  induction 1 as [ws Hws | ws t rest toks Hws Ht Hrest _ IH].
  - symmetry. now apply split_nil_blank.
  - rewrite (@split_blank_app ws _ Hws), (@split_token_app t rest Ht Hrest).
    now rewrite IH.
Qed.

Lemma split_token_space (t s : str) :
  token t -> split (t ++ lit " " ++ s) = t :: split s.
Proof.
  intros Ht. now rewrite (@split_token_app t (lit " " ++ s) Ht).
Qed.

(** Splitting the streamed text again gives the tokens back. *)
Lemma split_spaced (toks : list str) :
  Forall token toks ->
  split (concat (map (fun t => t ++ lit " ") toks)) = toks.
Proof.
  induction 1 as [|t toks Ht _ IH]; [reflexivity|].
  rewrite map_cons, concat_cons, <- app_assoc.
  rewrite (split_token_space _ Ht). f_equal. exact IH.
Qed.

Lemma concat_spaced_join (sep : str) (toks : list str) :
  toks <> [] ->
  concat (map (fun t => t ++ sep) toks) = join sep toks ++ sep.
Proof.
  induction toks as [|t toks IH]; [congruence|]. intros _.
  destruct toks as [|u toks].
  - simpl. now rewrite app_nil_r.
  - change (join sep (t :: u :: toks)) with (t ++ sep ++ join sep (u :: toks)).
    rewrite map_cons, concat_cons.
    specialize (IH ltac:(discriminate)).
    etransitivity; [apply f_equal; exact IH|].
    now rewrite <- !app_assoc.
Qed.

Lemma stream_words_tokens (content : str) :
  Forall (fun f => exists t, token t /\ f = t ++ lit " ")
    (Agent.stream_words content).
Proof.
  unfold Agent.stream_words. apply Forall_map.
  eapply Forall_impl; [|apply split_tokens].
  intros t Ht. exists t. split; [assumption|reflexivity].
Qed.

Lemma fragments_of_tokens (item : Agent.node * NodeOutput) :
  Forall (fun f => exists t, token t /\ f = t ++ lit " ")
    (Agent.fragments_of item).
Proof.
  destruct item as [[|] out]; simpl; [|constructor].
  destruct (last_message (out_messages out)) as [[c|c|c tcs|c i]|];
    try constructor.
  destruct (truthy c); [apply stream_words_tokens | constructor].
Qed.

(** ** Generators *)

Lemma yielded_yield_all {A : Type} (xs : list A) (k : gen A) :
  yielded (yield_all xs k) = xs ++ yielded k.
Proof. induction xs as [|x xs IH]; simpl; [reflexivity | now rewrite IH]. Qed.

Lemma raised_yield_all {A : Type} (xs : list A) (k : gen A) :
  raised (yield_all xs k) = raised k.
Proof. induction xs as [|x xs IH]; simpl; [reflexivity | exact IH]. Qed.

Lemma yielded_for_each {A B : Type} (g : gen B) (body : B -> list A) :
  yielded (for_each g body) = flat_map body (yielded g).
Proof.
  induction g as [| e | b k IH]; simpl; try reflexivity.
  now rewrite yielded_yield_all, IH.
Qed.

Lemma raised_for_each {A B : Type} (g : gen B) (body : B -> list A) :
  raised (for_each g body) = raised g.
Proof.
  induction g as [| e | b k IH]; simpl; try reflexivity.
  now rewrite raised_yield_all.
Qed.

Lemma yielded_try_except {A : Type} (g : gen A) (h : exn -> gen A) :
  yielded (try_except g h)
  = yielded g ++ match raised g with
                 | Some e => yielded (h e)
                 | None => []
                 end.
Proof.
  induction g as [| e | a k IH]; simpl; try reflexivity.
  now rewrite IH.
Qed.

Lemma raised_try_except {A : Type} (g : gen A) (h : exn -> gen A) :
  raised (try_except g h)
  = match raised g with
    | Some e => raised (h e)
    | None => None
    end.
Proof. induction g as [| e | a k IH]; simpl; auto. Qed.

(** A generator is the fragments it yields and the way it finishes. *)
Lemma gen_shape {A : Type} (g : gen A) :
  g = yield_all (yielded g)
        (match raised g with Some e => Raise e | None => Stop end).
Proof. induction g as [| e | a k IH]; simpl; congruence. Qed.

(** ** The SSE framing *)

Lemma sse_body_shape (g : gen str) (a : str) :
  Main.sse_body g a
  = map (Main.chunk_event a) (filter truthy (yielded g))
    ++ [match raised g with
        | Some e => Main.error_event a e
        | None => Main.complete_event a
        end].
Proof.
  induction g as [| e | x k IH]; simpl; try reflexivity.
  destruct (truthy x); simpl; now rewrite IH.
Qed.

Lemma terminal_filter_chunks (a : str) (l : list str) :
  filter Main.is_terminal (map (Main.chunk_event a) l) = [].
Proof. induction l; simpl; auto. Qed.

Lemma chunk_contents_app (l1 l2 : list Main.event) :
  Main.chunk_contents (l1 ++ l2)
  = Main.chunk_contents l1 ++ Main.chunk_contents l2.
Proof.
  induction l1 as [|ev l1 IH]; simpl; [reflexivity|].
  destruct ev; simpl; now rewrite IH.
Qed.

Lemma chunk_contents_chunks (a : str) (l : list str) :
  Main.chunk_contents (map (Main.chunk_event a) l) = l.
Proof. induction l; simpl; congruence. Qed.

(** The generators of the agent never raise: an exception of the
    pipeline becomes one more fragment. *)
Lemma stream_action_raised {W : Type} (rt : Agent.Runtime)
    (self : Agent.WritingAgent W) (act prefix : str) (w : W) (text : str)
    (ctx : option (dict str)) :
  raised (Agent.stream_action rt self act prefix w text ctx) = None.
Proof.
  unfold Agent.stream_action. rewrite raised_try_except.
  match goal with |- match raised ?g with _ => _ end = _ =>
    destruct (raised g) end; reflexivity.
Qed.

(** ** The agent node *)

Lemma last_message_snoc (ms : list Message) (m : Message) :
  last_message (ms ++ [m]) = Some m.
Proof. unfold last_message. now rewrite rev_app_distr. Qed.

(** What a visit of the agent node writes, case by case. *)
Lemma agent_node_cases {W : Type} (self : Agent.WritingAgent W) (w : W)
    (st : WritingState) :
  exists w' base c tcs,
    Agent.agent_node self w st
    = (w', {| out_messages := base ++ [AIMessage c tcs];
              out_iterations := Some (iterations st + 1)%Z |})
    /\ base = match messages st with
              | [] => Agent.initial_messages (action st) (content st)
                        (context st)
              | _ :: _ => messages st
              end
    /\ match Agent.llm self with
       | None => w' = w /\ c = Agent.mock_response (action st) /\ tcs = []
       | Some gw =>
           match gw w base with
           | (w1, inr (c1, tcs1)) => w' = w1 /\ c = c1 /\ tcs = tcs1
           | (w1, inl e) =>
               w' = w1 /\ c = lit "I encountered an error: " ++ e /\ tcs = []
           end
       end.
Proof.
  unfold Agent.agent_node, Agent.agent_node_try.
  set (base := match messages st with
               | [] => Agent.initial_messages (action st) (content st)
                         (context st)
               | _ :: _ => messages st
               end).
  destruct (Agent.llm self) as [gw|].
  - destruct (gw w base) as [w1 [e|[c1 tcs1]]] eqn:E.
    + exists w1, base, (lit "I encountered an error: " ++ e), [].
      rewrite E. repeat split; reflexivity.
    + exists w1, base, c1, tcs1. rewrite E. repeat split; reflexivity.
  - exists w, base, (Agent.mock_response (action st)), [].
    repeat split; reflexivity.
Qed.

Lemma agent_node_iterations {W : Type} (self : Agent.WritingAgent W) (w : W)
    (st : WritingState) :
  out_iterations (snd (Agent.agent_node self w st))
  = Some (iterations st + 1)%Z.
Proof.
  destruct (agent_node_cases self w st) as (w' & base & c & tcs & E & _).
  now rewrite E.
Qed.

Lemma should_continue_agent (st : WritingState) (base : list Message)
    (c : str) (tcs : list ToolCall) (i : Z) :
  Agent.should_continue
    (apply_output st {| out_messages := base ++ [AIMessage c tcs];
                        out_iterations := Some i |})
  = if (max_iterations st <=? i)%Z then Agent.End
    else match tcs with [] => Agent.End | _ :: _ => Agent.Continue end.
Proof.
  unfold Agent.should_continue, apply_output. simpl.
  now rewrite last_message_snoc.
Qed.

(** ** The loop *)

Section Loop.

Context {W : Type} (rt : Agent.Runtime) (self : Agent.WritingAgent W).

(** One step of [astream_from]. *)
Lemma astream_from_step (fuel : nat) (n : Agent.node) (w : W)
    (st : WritingState) :
  Agent.astream_from rt self (S fuel) n w st
  = match Agent.run_node rt self n w st with
    | inl e => Raise e
    | inr (w', out) =>
        Yield (n, out)
          (match Agent.next_node n (apply_output st out) with
           | Some n' =>
               Agent.astream_from rt self fuel n' w' (apply_output st out)
           | None =>
               match fuel with
               | O => Raise (Agent.recursion_error rt)
               | S _ => Stop
               end
           end)
    end.
Proof.
  cbn [Agent.astream_from].
  destruct (Agent.run_node rt self n w st) as [e|[w' out]]; [reflexivity|].
  destruct fuel; [|reflexivity].
  destruct (Agent.next_node n (apply_output st out)); reflexivity.
Qed.

Lemma astream_agent_visits (fuel : nat) :
  forall n w st,
    (Z.of_nat (visits Agent.agent (Agent.astream_from rt self fuel n w st))
     <= slack st)%Z.
Proof.
  unfold slack, visits, nodes_run.
  induction fuel as [|fuel IH]; intros n w st; [simpl; lia|].
  rewrite astream_from_step.
  destruct n; cbn [Agent.run_node].
  - destruct (agent_node_cases self w st)
      as (w' & base & c & tcs & E & _ & _).
    rewrite E. cbn [yielded map fst filter node_eqb length].
    unfold Agent.next_node. rewrite should_continue_agent.
    destruct (max_iterations st <=? iterations st + 1)%Z eqn:Hmax.
    + destruct fuel; simpl; lia.
    + apply Z.leb_gt in Hmax.
      destruct tcs as [|tc tcs]; [destruct fuel; simpl; lia|].
      match goal with
      | |- context [Agent.astream_from rt self fuel Agent.tools w' ?s] =>
          specialize (IH Agent.tools w' s); simpl in IH
      end.
      cbn [length]. lia.
  - destruct (Agent.tool_node rt (messages st)) as [e|ms]; [simpl; lia|].
    cbn [yielded map fst filter node_eqb Agent.next_node].
    match goal with
    | |- context [Agent.astream_from rt self fuel Agent.agent w ?s] =>
        specialize (IH Agent.agent w s); simpl in IH
    end.
    exact IH.
Qed.

Lemma astream_reaches_end (fuel : nat) :
  tool_node_total rt ->
  forall n w st,
    (need n st <= Z.of_nat fuel)%Z ->
    reaches_end (Agent.astream_from rt self fuel n w st).
Proof.
  intros Htool. unfold reaches_end, need, slack.
  induction fuel as [|fuel IH]; intros n w st Hfuel.
  - destruct n; lia.
  - rewrite astream_from_step.
    destruct n; cbn [Agent.run_node].
    + destruct (agent_node_cases self w st)
        as (w' & base & c & tcs & E & _ & _).
      rewrite E. cbn [raised].
      unfold Agent.next_node. rewrite should_continue_agent.
      destruct (max_iterations st <=? iterations st + 1)%Z eqn:Hmax;
        [destruct fuel; [lia | reflexivity]|].
      apply Z.leb_gt in Hmax.
      destruct tcs as [|tc tcs]; [destruct fuel; [lia | reflexivity]|].
      apply IH.
      cbn [apply_output out_iterations iterations max_iterations]. lia.
    + destruct (Htool (messages st)) as [ms Hms]. rewrite Hms.
      cbn [raised Agent.next_node].
      apply IH.
      cbn [apply_output out_iterations iterations max_iterations]. lia.
Qed.

(** The counter stays within the bound along every run that starts
    below it. *)
Lemma reachable_bounded (w0 : W) (st0 : WritingState) (c : Agent.config W) :
  (iterations st0 < max_iterations st0)%Z ->
  Agent.reachable rt self (Some Agent.agent, w0, st0) c ->
  let '(pc, _, st) := c in
  max_iterations st = max_iterations st0
  /\ (iterations st0 <= iterations st)%Z
  /\ match pc with
     | Some _ => (iterations st < max_iterations st)%Z
     | None => (iterations st <= max_iterations st)%Z
     end.
Proof.
  intros H0 Hreach.
  induction Hreach as [|c c' Hreach IH Hstep].
  - repeat split; [lia | assumption].
  - destruct Hstep as [n w st w' out Hrun].
    destruct IH as (Hmax & Hlo & Hit).
    destruct n; cbn [Agent.run_node] in Hrun.
    + injection Hrun as Hrun.
      destruct (agent_node_cases self w st)
        as (w1 & base & c1 & tcs & E & _ & _).
      rewrite E in Hrun. injection Hrun as -> <-.
      unfold Agent.next_node. rewrite should_continue_agent.
      cbn [apply_output out_iterations iterations max_iterations].
      destruct (max_iterations st <=? iterations st + 1)%Z eqn:Hle.
      * repeat split; lia.
      * apply Z.leb_gt in Hle.
        destruct tcs; repeat split; lia.
    + destruct (Agent.tool_node rt (messages st)) as [e|ms]; [discriminate|].
      injection Hrun as -> <-.
      cbn [Agent.next_node apply_output out_iterations iterations
           max_iterations].
      repeat split; lia.
Qed.

(** With a model that always asks for a tool, the run alternates
    between the two nodes until the bound on the counter stops it after
    an agent visit, when the step bound leaves room for it; with fewer
    steps it raises. *)
Lemma astream_always_tools (gw : Agent.gateway W) :
  Agent.llm self = Some gw ->
  always_requests_tools gw ->
  tool_node_total rt ->
  forall (k fuel : nat) w st,
    (max_iterations st - iterations st = Z.of_nat (S k))%Z ->
    (2 * k + 2 <= fuel ->
     nodes_run (Agent.astream_from rt self fuel Agent.agent w st)
     = loop_nodes k
     /\ reaches_end (Agent.astream_from rt self fuel Agent.agent w st))
    /\ (fuel <= 2 * k + 1 ->
        raised (Agent.astream_from rt self fuel Agent.agent w st)
        = Some (Agent.recursion_error rt)).
Proof.
  intros Hllm Hgw Htool. unfold nodes_run, reaches_end.
  assert (Hstep : forall fuel w st,
             (iterations st + 1 < max_iterations st)%Z ->
             exists w1 out1 ms,
               Agent.astream_from rt self (S (S fuel)) Agent.agent w st
               = Yield (Agent.agent, out1)
                   (Yield (Agent.tools,
                           {| out_messages := ms; out_iterations := None |})
                      (Agent.astream_from rt self fuel Agent.agent w1
                         (apply_output (apply_output st out1)
                            {| out_messages := ms;
                               out_iterations := None |})))
               /\ out_iterations out1 = Some (iterations st + 1)%Z).
  { intros fuel w st Hlt.
    rewrite astream_from_step. cbn [Agent.run_node].
    destruct (agent_node_cases self w st)
      as (w' & base & c & tcs & E & Hbase & Hcase).
    rewrite Hllm in Hcase.
    destruct (Hgw w base) as (w1 & c1 & tcs1 & Egw & Htcs).
    rewrite Egw in Hcase. destruct Hcase as (-> & -> & ->).
    rewrite E. unfold Agent.next_node at 1. rewrite should_continue_agent.
    replace (max_iterations st <=? iterations st + 1)%Z with false
      by (symmetry; apply Z.leb_gt; lia).
    destruct tcs1 as [|tc tcs1]; [congruence|].
    rewrite astream_from_step. cbn [Agent.run_node].
    match goal with
    | |- context [Agent.tool_node rt ?ms] =>
        destruct (Htool ms) as [ms' Hms]; rewrite Hms
    end.
    cbn [Agent.next_node].
    eexists _, _, _. split; reflexivity. }
  induction k as [|k IH]; intros fuel w st Hk.
  - split.
    + intros Hfuel. destruct fuel as [|[|fuel]]; [lia | lia |].
      rewrite astream_from_step. cbn [Agent.run_node].
      destruct (agent_node_cases self w st)
        as (w' & base & c & tcs & E & _ & _).
      rewrite E. cbn [yielded raised map fst].
      unfold Agent.next_node. rewrite should_continue_agent.
      replace (max_iterations st <=? iterations st + 1)%Z with true
        by (symmetry; apply Z.leb_le; lia).
      split; reflexivity.
    + intros Hfuel. destruct fuel as [|[|fuel]]; [reflexivity | | lia].
      rewrite astream_from_step. cbn [Agent.run_node].
      destruct (agent_node_cases self w st)
        as (w' & base & c & tcs & E & _ & _).
      rewrite E. cbn [raised].
      unfold Agent.next_node. rewrite should_continue_agent.
      replace (max_iterations st <=? iterations st + 1)%Z with true
        by (symmetry; apply Z.leb_le; lia).
      reflexivity.
  - assert (Hlt : (iterations st + 1 < max_iterations st)%Z) by lia.
    split.
    + intros Hfuel. destruct fuel as [|[|fuel]]; [lia | lia |].
      destruct (Hstep fuel w st Hlt) as (w1 & out1 & ms & -> & Hout).
      cbn [yielded raised map fst].
      match goal with
      | |- context [Agent.astream_from rt self fuel Agent.agent w1 ?s] =>
          destruct (IH fuel w1 s) as [[IHn IHe] _]
      end.
      * cbn [apply_output out_iterations iterations max_iterations].
        rewrite Hout. lia.
      * lia.
      * split; [cbn [loop_nodes]; now rewrite IHn | exact IHe].
    + intros Hfuel. destruct fuel as [|[|fuel]]; [reflexivity | |].
      * rewrite astream_from_step. cbn [Agent.run_node].
        destruct (agent_node_cases self w st)
          as (w' & base & c & tcs & E & _ & _).
        rewrite E. cbn [raised].
        destruct (Agent.next_node Agent.agent _); reflexivity.
      * destruct (Hstep fuel w st Hlt) as (w1 & out1 & ms & -> & Hout).
        cbn [raised].
        match goal with
        | |- context [Agent.astream_from rt self fuel Agent.agent w1 ?s] =>
            destruct (IH fuel w1 s) as [_ IHr]
        end.
        -- cbn [apply_output out_iterations iterations max_iterations].
           rewrite Hout. lia.
        -- apply IHr. lia.
Qed.

End Loop.




(** ** The claims about the agent loop *)

(** C1, as the code has it.  From [iterations = 0] and
    [max_iterations = N >= 1] the agent node runs at most [N] times,
    whatever the model answers and whether or not its call fails, and
    the counter never exceeds the bound in a reachable state.  The run
    reaches [END] when the tool node does not raise and the step bound
    of the runtime is at least [2N]. *)
Theorem C1_bounded_agent_loop {W : Type} (rt : Agent.Runtime)
    (self : Agent.WritingAgent W) (w : W) (st : WritingState) (N : Z)
    (fuel : nat) :
  iterations st = 0%Z -> max_iterations st = N -> (1 <= N)%Z ->
  (Z.of_nat (visits Agent.agent
               (Agent.astream_from rt self fuel Agent.agent w st)) <= N)%Z
  /\ (tool_node_total rt -> (2 * N <= Z.of_nat fuel)%Z ->
      reaches_end (Agent.astream_from rt self fuel Agent.agent w st))
  /\ (forall pc w' st',
        Agent.reachable rt self (Some Agent.agent, w, st) (pc, w', st') ->
        (iterations st' <= max_iterations st')%Z).
Proof.
  intros Hit Hmax HN. repeat split.
  - pose proof (astream_agent_visits rt self fuel Agent.agent w st) as H.
    unfold slack in H. lia.
  - intros Htool Hfuel. apply astream_reaches_end; [assumption|].
    unfold need, slack. lia.
  - intros pc w' st' Hreach.
    apply reachable_bounded in Hreach; [|lia].
    destruct Hreach as (_ & _ & H). destruct pc; lia.
Qed.

Lemma tool_node_ok_total : tool_node_total Doubles.rt25.
Proof.
  intros ms. unfold Doubles.rt25, Doubles.tool_node_ok. simpl.
  destruct (last_message ms) as [[c|c|c tcs|c i]|]; eauto.
Qed.

Lemma C1_witness :
  (Z.of_nat (visits Agent.agent
               (Agent.astream_from Doubles.rt25
                  (Doubles.agent_with Doubles.gw_tool) 25 Agent.agent tt
                  (Doubles.state0 (lit "generate") 3))) <= 3)%Z
  /\ (tool_node_total Doubles.rt25 -> (2 * 3 <= Z.of_nat 25)%Z ->
      reaches_end
        (Agent.astream_from Doubles.rt25
           (Doubles.agent_with Doubles.gw_tool) 25 Agent.agent tt
           (Doubles.state0 (lit "generate") 3)))
  /\ (forall pc w' st',
        Agent.reachable Doubles.rt25 (Doubles.agent_with Doubles.gw_tool)
          (Some Agent.agent, tt, Doubles.state0 (lit "generate") 3)
          (pc, w', st') ->
        (iterations st' <= max_iterations st')%Z).
Proof.
  apply (@C1_bounded_agent_loop unit Doubles.rt25
           (Doubles.agent_with Doubles.gw_tool) tt
           (Doubles.state0 (lit "generate") 3) 3%Z 25);
    [reflexivity | reflexivity | lia].
Defined.

Lemma gw_tool_always : always_requests_tools Doubles.gw_tool.
Proof.
  intros w ms. exists w, [], [Doubles.a_tool_call].
  split; [reflexivity | discriminate].
Qed.

(** C1 as stated fails where it says that the run reaches [END]: with
    the step bound of 25 and [N = 14] a model that always asks for tools
    is stopped by the recursion-limit error after 13 agent visits, and
    with a tool node that raises the run stops after the first agent
    visit. *)
Lemma C1_counterexample :
  let tr := Agent.astream Doubles.rt25 (Doubles.agent_with Doubles.gw_tool) tt
              (Doubles.state0 (lit "generate") 14) in
  let tr' := Agent.astream Doubles.rt_tool_fails
               (Doubles.agent_with Doubles.gw_tool) tt
               (Doubles.state0 (lit "generate") 3) in
  raised tr = Some (Agent.recursion_error Doubles.rt25)
  /\ visits Agent.agent tr = 13
  /\ ~ reaches_end tr
  /\ raised tr' = Some (lit "tool node failed")
  /\ visits Agent.agent tr' = 1
  /\ ~ reaches_end tr'.
Proof.
  intros tr tr'.
  assert (H : raised tr = Some (Agent.recursion_error Doubles.rt25)).
  { destruct (@astream_always_tools unit Doubles.rt25
                (Doubles.agent_with Doubles.gw_tool) Doubles.gw_tool
                eq_refl gw_tool_always tool_node_ok_total 13 25 tt
                (Doubles.state0 (lit "generate") 14) eq_refl) as [_ Hr].
    apply Hr. simpl. lia. }
  split; [exact H|].
  split; [vm_compute; reflexivity|].
  split; [unfold reaches_end; rewrite H; discriminate|].
  split; [reflexivity|]. split; [reflexivity|].
  unfold reaches_end. discriminate.
Qed.




(** C5.  Every visit of the agent node adds exactly one to
    [iterations], whether the model call returns or raises, and returns
    normally; when the call raises, the node appends an assistant
    message with the text of the error, after which the routing
    function sends the run to [END]. *)
Theorem C5_agent_node_counts_and_recovers {W : Type}
    (self : Agent.WritingAgent W) (w : W) (st : WritingState) :
  let out := snd (Agent.agent_node self w st) in
  let base := match messages st with
              | [] => Agent.initial_messages (action st) (content st)
                        (context st)
              | _ :: _ => messages st
              end in
  out_iterations out = Some (iterations st + 1)%Z
  /\ iterations (apply_output st out) = (iterations st + 1)%Z
  /\ (forall rt,
        Agent.run_node rt self Agent.agent w st
        = inr (Agent.agent_node self w st))
  /\ (forall gw w1 e,
        Agent.llm self = Some gw -> gw w base = (w1, inl e) ->
        Agent.agent_node self w st
        = (w1, {| out_messages :=
                    base ++ [AIMessage (lit "I encountered an error: " ++ e) []];
                  out_iterations := Some (iterations st + 1)%Z |})
        /\ Agent.should_continue (apply_output st out) = Agent.End).
Proof.
  intros out base. subst out.
  destruct (agent_node_cases self w st)
    as (w' & base' & c & tcs & E & Hbase & Hcase).
  fold base in Hbase. subst base'.
  rewrite E. cbn [snd out_iterations].
  split; [reflexivity|]. split; [reflexivity|].
  split; [intros rt; cbn [Agent.run_node]; now rewrite E|].
  intros gw w1 e Hllm Hgw. rewrite Hllm, Hgw in Hcase.
  destruct Hcase as (-> & -> & ->).
  split; [reflexivity|].
  rewrite should_continue_agent.
  destruct (max_iterations st <=? iterations st + 1)%Z; reflexivity.
Qed.

Lemma C5_witness :
  let st := Doubles.state0 (lit "generate") 3 in
  let self := Doubles.agent_with Doubles.gw_fail in
  let out := snd (Agent.agent_node self tt st) in
  let base := Agent.initial_messages (action st) (content st) (context st) in
  out_iterations out = Some 1%Z
  /\ Agent.agent_node self tt st
     = (tt, {| out_messages :=
                 base ++ [AIMessage (lit "I encountered an error: boom") []];
               out_iterations := Some 1%Z |})
  /\ Agent.should_continue (apply_output st out) = Agent.End.
Proof.
  intros st self out base.
  pose proof (@C5_agent_node_counts_and_recovers unit self tt st)
    as (H1 & _ & _ & H4).
  destruct (H4 Doubles.gw_fail tt (lit "boom") eq_refl eq_refl) as [H5 H6].
  split; [exact H1 | split; [exact H5 | exact H6]].
Defined.

(** ** The claims about streaming *)

Lemma spaced_truthy (l : list str) :
  Forall (fun f => exists t, token t /\ f = t ++ lit " ") l ->
  filter truthy l = l.
Proof.
  induction 1 as [|f l (t & _ & ->) _ IH]; [reflexivity|].
  simpl. destruct t; simpl; now rewrite IH.
Qed.

Lemma filter_truthy_nonempty (l : list str) :
  Forall (fun c => c <> []) (filter truthy l).
Proof.
  induction l as [|x l IH]; simpl; [constructor|].
  destruct x; simpl; [assumption|].
  constructor; [discriminate | assumption].
Qed.

Lemma create_sse_stream_shape (g : gen str) (a : str) :
  Main.create_sse_stream g a
  = Main.start_event a
    :: map (Main.chunk_event a) (filter truthy (yielded g))
    ++ [match raised g with
        | Some e => Main.error_event a e
        | None => Main.complete_event a
        end].
Proof. unfold Main.create_sse_stream. now rewrite sse_body_shape. Qed.

Lemma forallb_chunks (p : Main.event -> bool) (a : str) (l : list str) :
  (forall c, p (Main.chunk_event a c) = true) ->
  forallb p (map (Main.chunk_event a) l) = true.
Proof. intros H. induction l; simpl; [reflexivity | now rewrite H]. Qed.

Lemma existsb_chunks (p : Main.event -> bool) (a : str) (l : list str) :
  (forall c, p (Main.chunk_event a c) = false) ->
  existsb p (map (Main.chunk_event a) l) = false.
Proof. intros H. induction l; simpl; [reflexivity | now rewrite H]. Qed.

Lemma create_sse_stream_last (g : gen str) (a : str) :
  last (Main.create_sse_stream g a) (Main.start_event a)
  = match raised g with
    | Some e => Main.error_event a e
    | None => Main.complete_event a
    end.
Proof.
  rewrite create_sse_stream_shape.
  match goal with
  | |- last (?x :: ?l ++ [?t]) _ = _ =>
      change (x :: l ++ [t]) with ((x :: l) ++ [t])
  end.
  apply last_last.
Qed.

Lemma create_sse_stream_chunks (g : gen str) (a : str) :
  Main.chunk_contents (Main.create_sse_stream g a)
  = filter truthy (yielded g).
Proof.
  rewrite create_sse_stream_shape.
  cbn [Main.chunk_contents]. rewrite chunk_contents_app.
  rewrite chunk_contents_chunks.
  destruct (raised g); simpl; now rewrite app_nil_r.
Qed.

Lemma create_sse_stream_no_error (g : gen str) (a : str) :
  raised g = None ->
  existsb Main.is_error (Main.create_sse_stream g a) = false.
Proof.
  intros Hg. rewrite create_sse_stream_shape, Hg.
  cbn [existsb Main.is_error orb].
  rewrite existsb_app, existsb_chunks by reflexivity. reflexivity.
Qed.

(** C2.  The stream of [create_sse_stream] is the start event, one
    chunk event per non-empty fragment in the order of the generator,
    and one terminal event, last: [complete] when the generator stopped,
    [error] when it raised, never both. *)
Theorem C2_event_stream_framing (g : gen str) (a : str) :
  let evs := Main.create_sse_stream g a in
  let terminal := match raised g with
                  | Some e => Main.error_event a e
                  | None => Main.complete_event a
                  end in
  evs = Main.start_event a
        :: map (Main.chunk_event a) (filter truthy (yielded g)) ++ [terminal]
  /\ length (filter Main.is_terminal evs) = 1
  /\ existsb Main.is_complete evs && existsb Main.is_error evs = false
  /\ last evs (Main.start_event a) = terminal
  /\ forallb (fun ev => negb (Main.is_terminal ev)) (removelast evs) = true
  /\ hd_error evs = Some (Main.start_event a)
  /\ forallb (fun ev => negb (Main.is_start ev)) (tl evs) = true
  /\ forallb Main.is_chunk (removelast (tl evs)) = true
  /\ Main.chunk_contents evs = filter truthy (yielded g).
Proof.
  intros evs terminal. subst evs.
  rewrite create_sse_stream_shape. fold terminal.
  set (chunks := map (Main.chunk_event a) (filter truthy (yielded g))).
  assert (Hterm : Main.is_terminal terminal = true)
    by (subst terminal; destruct (raised g); reflexivity).
  split; [reflexivity|].
  split.
  { cbn [filter Main.is_terminal Main.is_complete Main.is_error orb].
    rewrite filter_app. subst chunks. rewrite terminal_filter_chunks.
    simpl. now rewrite Hterm. }
  split.
  { cbn [existsb Main.is_complete Main.is_error orb].
    rewrite !existsb_app. subst chunks.
    rewrite !existsb_chunks by reflexivity.
    subst terminal. destruct (raised g); reflexivity. }
  split.
  { change (Main.start_event a :: chunks ++ [terminal])
      with ((Main.start_event a :: chunks) ++ [terminal]).
    apply last_last. }
  split.
  { change (Main.start_event a :: chunks ++ [terminal])
      with ((Main.start_event a :: chunks) ++ [terminal]).
    rewrite removelast_last. cbn [forallb Main.is_terminal Main.is_complete
                                   Main.is_error orb negb andb].
    subst chunks. now apply forallb_chunks. }
  split; [reflexivity|].
  split.
  { cbn [tl]. rewrite forallb_app. subst chunks.
    rewrite forallb_chunks by reflexivity.
    subst terminal. destruct (raised g); reflexivity. }
  split.
  { cbn [tl]. rewrite removelast_last. subst chunks.
    now apply forallb_chunks. }
  cbn [Main.chunk_contents]. rewrite chunk_contents_app. subst chunks.
  rewrite chunk_contents_chunks.
  subst terminal. destruct (raised g); simpl; now rewrite app_nil_r.
Qed.

(** What the generators of the agent yield. *)
Lemma stream_action_yielded {W : Type} (rt : Agent.Runtime)
    (self : Agent.WritingAgent W) (act prefix : str) (w : W) (text : str)
    (ctx : option (dict str)) :
  let st0 := {| messages := []; content := text;
                context := match ctx with None => [] | Some c => c end;
                action := act; iterations := 0; max_iterations := 3 |} in
  yielded (Agent.stream_action rt self act prefix w text ctx)
  = if Agent.graph self
    then flat_map Agent.fragments_of (yielded (Agent.astream rt self w st0))
         ++ match raised (Agent.astream rt self w st0) with
            | Some e => [prefix ++ e]
            | None => []
            end
    else [prefix ++ Agent.no_graph_error].
Proof.
  intros st0. unfold Agent.stream_action. fold st0.
  rewrite yielded_try_except.
  destruct (Agent.graph self).
  - rewrite yielded_for_each, raised_for_each.
    destruct (raised (Agent.astream rt self w st0)); reflexivity.
  - reflexivity.
Qed.

Lemma flat_map_fragments_tokens (items : list (Agent.node * NodeOutput)) :
  Forall (fun f => exists t, token t /\ f = t ++ lit " ")
    (flat_map Agent.fragments_of items).
Proof.
  induction items as [|item items IH]; simpl; [constructor|].
  apply Forall_app. split; [apply fragments_of_tokens | assumption].
Qed.

(** A failed first call of the model ends the run after one visit. *)
Lemma astream_gateway_failure {W : Type} (rt : Agent.Runtime)
    (self : Agent.WritingAgent W) (gw : Agent.gateway W) (w w1 : W)
    (e : exn) (st : WritingState) (fuel : nat) :
  Agent.llm self = Some gw -> messages st = [] ->
  gw w (Agent.initial_messages (action st) (content st) (context st))
  = (w1, inl e) ->
  Agent.astream_from rt self (S (S fuel)) Agent.agent w st
  = Yield (Agent.agent,
           {| out_messages :=
                Agent.initial_messages (action st) (content st) (context st)
                ++ [AIMessage (lit "I encountered an error: " ++ e) []];
              out_iterations := Some (iterations st + 1)%Z |}) Stop.
Proof.
  intros Hllm Hms Hgw.
  rewrite astream_from_step. cbn [Agent.run_node].
  destruct (agent_node_cases self w st)
    as (w' & base & c & tcs & E & Hbase & Hcase).
  rewrite Hms in Hbase. subst base.
  rewrite Hllm, Hgw in Hcase. destruct Hcase as (-> & -> & ->).
  rewrite E. unfold Agent.next_node. rewrite should_continue_agent.
  destruct (max_iterations st <=? iterations st + 1)%Z; reflexivity.
Qed.

(** C3, as the code has it.  The error event is the terminal event
    exactly when the generator handed to [create_sse_stream] raises, and
    a generator that raises at once gives start then one error event.
    The generators of the agent never raise: a failed call of the model
    becomes the assistant text [I encountered an error: ...], streamed
    as chunks, and any other exception of the pipeline becomes a last
    fragment made of the error prefix and the text of the exception;
    their streams end with the complete event and carry no error
    event. *)
Theorem C3_exceptions_in_the_stream :
  (forall (g : gen str) (a : str) (e : exn),
      raised g = Some e ->
      Main.create_sse_stream g a
      = Main.start_event a
        :: map (Main.chunk_event a) (filter truthy (yielded g))
        ++ [Main.error_event a e])
  /\ (forall (a : str) (e : exn),
        Main.create_sse_stream (Raise e) a
        = [Main.start_event a; Main.error_event a e])
  /\ (forall (W : Type) rt (self : Agent.WritingAgent W) act prefix w text
             ctx a,
        let evs := Main.create_sse_stream
                     (Agent.stream_action rt self act prefix w text ctx) a in
        existsb Main.is_error evs = false
        /\ last evs (Main.start_event a) = Main.complete_event a)
  /\ (forall (W : Type) rt (self : Agent.WritingAgent W) gw w w1 e request,
        Agent.graph self = true -> Agent.llm self = Some gw ->
        2 <= Agent.recursion_limit rt ->
        gw w (Agent.initial_messages (lit "generate") (Main.prompt request)
                (match Main.generate_context request with
                 | None => []
                 | Some c => c
                 end))
        = (w1, inl e) ->
        Main.generate_text rt self w request
        = Main.start_event (lit "generation")
          :: map (Main.chunk_event (lit "generation"))
               (Agent.stream_words (lit "I encountered an error: " ++ e))
          ++ [Main.complete_event (lit "generation")])
  /\ (forall (W : Type) rt (self : Agent.WritingAgent W) act prefix w text
             ctx e,
        Agent.graph self = true ->
        raised (Agent.astream rt self w
                  {| messages := []; content := text;
                     context := match ctx with None => [] | Some c => c end;
                     action := act; iterations := 0; max_iterations := 3 |})
        = Some e ->
        exists frags,
          yielded (Agent.stream_action rt self act prefix w text ctx)
          = frags ++ [prefix ++ e]).
Proof.
  split; [|split; [|split; [|split]]].
  - intros g a e Hg. rewrite create_sse_stream_shape. now rewrite Hg.
  - reflexivity.
  - intros W rt self act prefix w text ctx a evs. subst evs.
    split.
    + apply create_sse_stream_no_error, stream_action_raised.
    + now rewrite create_sse_stream_last, stream_action_raised.
  - intros W rt self gw w w1 e request Hgraph Hllm Hlimit Hgw.
    unfold Main.generate_text. rewrite create_sse_stream_shape.
    unfold Agent.generate_text.
    rewrite stream_action_raised, stream_action_yielded, Hgraph.
    unfold Agent.astream, Agent.entry_point.
    destruct (Agent.recursion_limit rt) as [|[|fuel]]; [lia | lia |].
    assert (Hctx : match Main.or_empty (Main.generate_context request) with
                   | None => []
                   | Some c => c
                   end
                   = match Main.generate_context request with
                     | None => []
                     | Some c => c
                     end)
      by (destruct (Main.generate_context request); reflexivity).
    rewrite Hctx.
    erewrite astream_gateway_failure;
      [| exact Hllm | reflexivity | exact Hgw].
    cbn [yielded raised flat_map Agent.fragments_of out_messages].
    rewrite last_message_snoc. cbn [truthy lit app].
    rewrite !app_nil_r.
    rewrite (spaced_truthy (stream_words_tokens _)). reflexivity.
  - intros W rt self act prefix w text ctx e Hgraph Hraised.
    rewrite stream_action_yielded, Hgraph. cbv zeta. rewrite Hraised.
    eexists. reflexivity.
Qed.

Lemma C3_witness :
  Main.generate_text Doubles.rt25 (Doubles.agent_with Doubles.gw_fail) tt
    {| Main.prompt := lit "x"; Main.generate_context := None |}
  = Main.start_event (lit "generation")
    :: map (Main.chunk_event (lit "generation"))
         (Agent.stream_words (lit "I encountered an error: " ++ lit "boom"))
    ++ [Main.complete_event (lit "generation")].
Proof.
  destruct C3_exceptions_in_the_stream as (_ & _ & _ & H & _).
  apply (H unit Doubles.rt25 (Doubles.agent_with Doubles.gw_fail)
           Doubles.gw_fail tt tt (lit "boom")
           {| Main.prompt := lit "x"; Main.generate_context := None |});
    [reflexivity | reflexivity | simpl; lia | reflexivity].
Defined.

(** C3 as stated fails: a model call that raises, and an agent without
    a graph, both give chunk events and a complete event, and no error
    event. *)
Lemma C3_counterexample :
  let request := {| Main.prompt := lit "x"; Main.generate_context := None |} in
  let a := lit "generation" in
  Doubles.gw_fail tt (Agent.initial_messages (lit "generate") (lit "x") [])
  = (tt, inl (lit "boom"))
  /\ Main.generate_text Doubles.rt25 (Doubles.agent_with Doubles.gw_fail) tt
       request
     = [ Main.start_event a;
         Main.chunk_event a (lit "I ");
         Main.chunk_event a (lit "encountered ");
         Main.chunk_event a (lit "an ");
         Main.chunk_event a (lit "error: ");
         Main.chunk_event a (lit "boom ");
         Main.complete_event a ]
  /\ (forall e,
        Main.generate_text Doubles.rt25 (Doubles.agent_with Doubles.gw_fail)
          tt request
        <> [Main.start_event a; Main.error_event a e])
  /\ Main.generate_text Doubles.rt25 Doubles.agent_no_graph tt request
     = [ Main.start_event a;
         Main.chunk_event a
           (lit "Error generating text: 'NoneType' object has no attribute 'astream'");
         Main.complete_event a ]
  /\ (forall e,
        Main.generate_text Doubles.rt25 Doubles.agent_no_graph tt request
        <> [Main.start_event a; Main.error_event a e]).
Proof.
  intros request a.
  split; [reflexivity|].
  split; [vm_compute; reflexivity|].
  split; [intros e H; vm_compute in H; discriminate|].
  split; [vm_compute; reflexivity|].
  intros e H; vm_compute in H; discriminate.
Qed.

(** C7, as the code has it.  For a non-empty assistant text the
    fragments are the whitespace-delimited tokens of the text, in order,
    each followed by one space.  When the text has a token their
    concatenation is the tokens joined by single spaces plus one
    trailing space; a text of whitespace only yields no fragment.
    Splitting the concatenation again gives the same tokens. *)
Theorem C7_stream_fragments (content : str) (tcs : list ToolCall)
    (out : NodeOutput) :
  last_message (out_messages out) = Some (AIMessage content tcs) ->
  truthy content = true ->
  let frags := Agent.fragments_of (Agent.agent, out) in
  frags = map (fun t => t ++ lit " ") (split content)
  /\ (forall toks, tokenized content toks <-> toks = split content)
  /\ (split content <> [] ->
      concat frags = join (lit " ") (split content) ++ lit " ")
  /\ (blank content -> frags = [])
  /\ split (concat frags) = split content
  /\ Agent.stream_words (lit "Hello world") = [lit "Hello "; lit "world "].
Proof.
  intros Hlast Htruthy frags.
  assert (E : frags = map (fun t => t ++ lit " ") (split content)).
  { subst frags. unfold Agent.fragments_of. now rewrite Hlast, Htruthy. }
  rewrite E.
  split; [reflexivity|].
  split; [intros toks; apply tokenized_split|].
  split; [apply concat_spaced_join|].
  split.
  { intros Hb. apply split_nil_blank in Hb. now rewrite Hb. }
  split; [apply split_spaced, split_tokens | reflexivity].
Qed.

Lemma C7_witness :
  let out := {| out_messages := [AIMessage (lit "Hello world") []];
                out_iterations := Some 1%Z |} in
  Agent.fragments_of (Agent.agent, out) = [lit "Hello "; lit "world "]
  /\ concat (Agent.fragments_of (Agent.agent, out)) = lit "Hello world ".
Proof.
  intros out.
  destruct (@C7_stream_fragments (lit "Hello world") [] out eq_refl eq_refl)
    as (H1 & _ & H3 & _).
  split; [exact H1 | apply H3; discriminate].
Defined.

(** C7 as stated fails on a text of whitespace only: it is not empty,
    nothing is streamed, and the tokens joined by spaces plus a
    trailing space are one space. *)
Lemma C7_counterexample :
  let content := lit " " in
  let out := {| out_messages := [AIMessage content []];
                out_iterations := Some 1%Z |} in
  truthy content = true
  /\ Agent.fragments_of (Agent.agent, out) = []
  /\ concat (Agent.fragments_of (Agent.agent, out))
     <> join (lit " ") (split content) ++ lit " "
  /\ yielded (Agent.generate_text Doubles.rt25
                (Doubles.agent_with (Doubles.gw_say content)) tt (lit "x")
                None) = [].
Proof.
  intros content out.
  split; [reflexivity|]. split; [reflexivity|].
  split; [discriminate | reflexivity].
Qed.

(** C10, as the code has it.  Every chunk event carries a non-empty
    content.  The fragments of a generator of the agent are the words
    of the assistant messages, each a token followed by one space; when
    the run failed, and only then, one more fragment follows them, last:
    the error prefix with the text of the exception. *)
Theorem C10_chunks_not_empty :
  (forall (g : gen str) (a : str),
      Forall (fun c => c <> [])
        (Main.chunk_contents (Main.create_sse_stream g a)))
  /\ (forall (W : Type) rt (self : Agent.WritingAgent W) act prefix w text
             ctx,
        let st := request_state act text ctx in
        let words :=
          if Agent.graph self
          then flat_map Agent.fragments_of (yielded (Agent.astream rt self w st))
          else [] in
        Forall (fun f => exists t, token t /\ f = t ++ lit " ") words
        /\ yielded (Agent.stream_action rt self act prefix w text ctx)
           = words ++ match failure rt self w st with
                      | Some e => [prefix ++ e]
                      | None => []
                      end)
  /\ (forall (W : Type) rt (self : Agent.WritingAgent W) act prefix w text
             ctx,
        failure rt self w (request_state act text ctx) = None ->
        Forall (fun f => exists t, token t /\ f = t ++ lit " ")
          (yielded (Agent.stream_action rt self act prefix w text ctx))).
Proof.
  assert (Hshape :
            forall (W : Type) rt (self : Agent.WritingAgent W) act prefix w
                   text ctx,
              let st := request_state act text ctx in
              let words :=
                if Agent.graph self
                then flat_map Agent.fragments_of
                       (yielded (Agent.astream rt self w st))
                else [] in
              Forall (fun f => exists t, token t /\ f = t ++ lit " ") words
              /\ yielded (Agent.stream_action rt self act prefix w text ctx)
                 = words ++ match failure rt self w st with
                            | Some e => [prefix ++ e]
                            | None => []
                            end).
  { intros W rt self act prefix w text ctx st words. subst words.
    rewrite stream_action_yielded. cbv zeta. fold (request_state act text ctx).
    fold st. unfold failure.
    destruct (Agent.graph self).
    - split; [apply flat_map_fragments_tokens | reflexivity].
    - split; [constructor | reflexivity]. }
  split; [|split].
  - intros g a.
    rewrite create_sse_stream_chunks. apply filter_truthy_nonempty.
  - exact Hshape.
  - intros W rt self act prefix w text ctx Hok.
    destruct (Hshape W rt self act prefix w text ctx) as [Hwords ->].
    rewrite Hok, app_nil_r. exact Hwords.
Qed.

Lemma C10_witness :
  Forall (fun f => exists t, token t /\ f = t ++ lit " ")
    (yielded (Agent.stream_action Doubles.rt25 Doubles.agent_mock
                (lit "generate") (lit "Error generating text: ") tt
                (lit "x") None)).
Proof.
  destruct C10_chunks_not_empty as (_ & _ & H).
  apply (H unit Doubles.rt25 Doubles.agent_mock); reflexivity.
Defined.

Lemma spaced_last (t : str) (d : char) : last (t ++ lit " ") d = 32%N.
Proof. apply last_last. Qed.

(** C10 as stated fails for an agent without a graph: the only
    fragment is an error text with spaces inside and no trailing
    space. *)
Lemma C10_counterexample :
  let f := lit "Error generating text: 'NoneType' object has no attribute 'astream'" in
  yielded (Agent.generate_text Doubles.rt25 Doubles.agent_no_graph tt
             (lit "x") None) = [f]
  /\ ~ (exists t, token t /\ f = t ++ lit " ").
Proof.
  intros f. split; [reflexivity|].
  intros (t & _ & E).
  apply (f_equal (fun s => last s 0%N)) in E.
  rewrite spaced_last in E. vm_compute in E. discriminate.
Qed.

(** ** The first messages *)

Lemma add_if_extends (context : dict str) (key prefix m : str) :
  exists suffix, Agent.add_if context key prefix m = m ++ suffix.
Proof.
  unfold Agent.add_if.
  destruct (dict_get context key) as [v|]; [destruct (truthy v)|].
  - exists (prefix ++ v). reflexivity.
  - exists []. now rewrite app_nil_r.
  - exists []. now rewrite app_nil_r.
Qed.

Lemma system_prompt_unknown (action : str) :
  action <> lit "generate" -> action <> lit "edit" ->
  action <> lit "improve" ->
  Agent.system_prompt action = Agent.system_prompt_generate
  /\ Studio.system_prompt action = Studio.system_prompt_generate.
Proof.
  intros Hg He Hi.
  unfold Agent.system_prompt, Studio.system_prompt, Agent.system_prompts,
    Studio.system_prompts, dict_get.
  assert (E1 : str_eqb (lit "generate") action = false)
    by (apply str_eqb_neq; congruence).
  assert (E2 : str_eqb (lit "edit") action = false)
    by (apply str_eqb_neq; congruence).
  assert (E3 : str_eqb (lit "improve") action = false)
    by (apply str_eqb_neq; congruence).
  now rewrite E1, E2, E3.
Qed.

Lemma user_message_unknown (action content : str) (context : dict str) :
  action <> lit "generate" -> action <> lit "edit" ->
  Agent.user_message action content context
  = Agent.user_message (lit "improve") content context
  /\ Studio.user_message action content context
     = Agent.user_message (lit "improve") content context.
Proof.
  intros Hg He.
  unfold Agent.user_message, Studio.user_message.
  apply str_eqb_neq in Hg, He. rewrite Hg, He.
  split; reflexivity.
Qed.

Lemma improve_is_not_generate (content : str) (context : dict str) :
  Agent.user_message (lit "improve") content context
  <> Agent.user_message (lit "generate") content context.
Proof.
  unfold Agent.user_message.
  change (str_eqb (lit "improve") (lit "generate")) with false.
  change (str_eqb (lit "improve") (lit "edit")) with false.
  change (str_eqb (lit "generate") (lit "generate")) with true.
  cbv iota.
  destruct (add_if_extends context (lit "aspect")
              (lines [ []; []; lit "**Specific aspect:** " ])
              (lines [ lit "Please help me improve this text:"; []; [] ]
                 ++ content)) as [s1 ->].
  destruct (add_if_extends context (lit "style")
              (lines [ []; []; lit "**Style:** " ])
              (lit "Please help me generate text based on this prompt: "
                 ++ content)) as [s2 E2].
  rewrite E2.
  destruct (add_if_extends context (lit "length")
              (lines [ []; lit "**Length:** " ])
              ((lit "Please help me generate text based on this prompt: "
                  ++ content) ++ s2)) as [s3 ->].
  intros H. apply (f_equal (firstn 16)) in H.
  vm_compute in H. discriminate.
Qed.

(** C6, on the code.  For an action other than the three known ones the
    system prompt is the one of [generate], and the user message is the
    one of [improve], which is never the [generate] message. *)
Theorem C6_unknown_action_messages (action content : str)
    (context : dict str) :
  action <> lit "generate" -> action <> lit "edit" ->
  action <> lit "improve" ->
  Agent.initial_messages action content context
  = [ SystemMessage Agent.system_prompt_generate;
      HumanMessage (Agent.user_message (lit "improve") content context) ]
  /\ Studio.initial_messages action content context
     = [ SystemMessage Studio.system_prompt_generate;
         HumanMessage (Agent.user_message (lit "improve") content context) ]
  /\ Agent.initial_messages action content context
     <> Agent.initial_messages (lit "generate") content context
  /\ Studio.initial_messages action content context
     <> Studio.initial_messages (lit "generate") content context.
Proof.
  intros Hg He Hi.
  destruct (system_prompt_unknown Hg He Hi) as [Es1 Es2].
  destruct (user_message_unknown content context Hg He) as [Eu1 Eu2].
  unfold Agent.initial_messages, Studio.initial_messages.
  rewrite Es1, Es2, Eu1, Eu2.
  split; [reflexivity|]. split; [reflexivity|].
  split; intros H; injection H as H;
    revert H; apply improve_is_not_generate.
Qed.

Lemma C6_witness :
  Agent.initial_messages (lit "summarize") (lit "x") []
  = [ SystemMessage Agent.system_prompt_generate;
      HumanMessage (lines [ lit "Please help me improve this text:"; [];
                            lit "x" ]) ]
  /\ Agent.initial_messages (lit "generate") (lit "x") []
     = [ SystemMessage Agent.system_prompt_generate;
         HumanMessage
           (lit "Please help me generate text based on this prompt: x") ].
Proof.
  destruct (@C6_unknown_action_messages (lit "summarize") (lit "x") [])
    as (H & _); [discriminate | discriminate | discriminate |].
  split; [exact H | reflexivity].
Defined.

(** ** The tools *)

Lemma blank_forallb (s : str) : blank s <-> forallb isspace s = true.
Proof.
  unfold blank. rewrite Forall_forall, forallb_forall. reflexivity.
Qed.

Lemma strip_truthy_forallb (s : str) :
  truthy (strip s) = negb (forallb isspace s).
Proof.
  destruct (forallb isspace s) eqn:E; simpl.
  - apply strip_truthy_false, blank_forallb, E.
  - apply strip_truthy_true. intros H. apply blank_forallb in H. congruence.
Qed.

Lemma split_sep_go_nonempty (sep : str) (s : str) :
  forall skip cur, split_sep_go sep skip cur s <> [].
Proof.
  induction s as [|c s IH]; intros skip cur; simpl; [discriminate|].
  destruct skip; [|apply IH].
  destruct (starts_with sep (c :: s)); [discriminate | apply IH].
Qed.

(** Splitting on one character gives one piece more than there are
    occurrences of it. *)
Lemma split_sep_char_length (c : char) (s : str) :
  forall cur,
    length (split_sep_go [c] 0 cur s) = S (length (filter (char_eqb c) s)).
Proof.
  induction s as [|x s IH]; intros cur; [reflexivity|].
  cbn [split_sep_go starts_with length Nat.sub filter].
  destruct (char_eqb c x); cbn [andb length]; now rewrite IH.
Qed.

Lemma split_sep_go_skip (sep : str) (pre rest : str) :
  forall cur,
    split_sep_go sep (length pre) cur (pre ++ rest)
    = split_sep_go sep 0 cur rest.
Proof. induction pre as [|x pre IH]; intros cur; simpl; auto. Qed.

Lemma starts_with_app (p s : str) :
  starts_with p s = true -> exists rest, s = p ++ rest.
Proof.
  revert s. induction p as [|x p IH]; intros s H.
  - exists s. reflexivity.
  - destruct s as [|y s]; [discriminate|]. simpl in H.
    apply andb_true_iff in H as [Hx Hp]. apply N.eqb_eq in Hx. subst y.
    destruct (IH s Hp) as [rest ->]. exists rest. reflexivity.
Qed.

Lemma join_cons (sep x : str) (l : list str) :
  l <> [] -> join sep (x :: l) = x ++ sep ++ join sep l.
Proof. destruct l; [congruence | reflexivity]. Qed.

(** The pieces of [s.split(sep)], joined by [sep], are [s]. *)
Lemma join_split_sep_go (sep : str) :
  sep <> [] ->
  forall n s cur,
    length s <= n -> join sep (split_sep_go sep 0 cur s) = rev cur ++ s.
Proof.
  intros Hsep. induction n as [|n IH]; intros s cur Hlen.
  - destruct s; [|simpl in Hlen; lia]. simpl. now rewrite app_nil_r.
  - destruct s as [|c s]; [simpl; now rewrite app_nil_r|].
    cbn [split_sep_go].
    destruct (starts_with sep (c :: s)) eqn:Hst.
    + destruct (starts_with_app _ _ Hst) as [rest Hrest].
      destruct sep as [|x sep']; [congruence|].
      injection Hrest as -> ->.
      cbn [length Nat.sub]. rewrite Nat.sub_0_r.
      rewrite split_sep_go_skip.
      rewrite join_cons by apply split_sep_go_nonempty.
      rewrite IH.
      * reflexivity.
      * simpl in Hlen. rewrite length_app in Hlen. lia.
    + rewrite IH by (simpl in Hlen; lia).
      simpl. now rewrite <- app_assoc.
Qed.

Lemma join_split_sep (sep s : str) :
  sep <> [] -> join sep (split_sep sep s) = s.
Proof.
  intros Hsep. unfold split_sep.
  now rewrite (join_split_sep_go Hsep (n := length s)).
Qed.


(** ** The vocabulary of the statements and the functions of the code *)

Lemma to_uint_not_nil (n : nat) : Nat.to_uint n <> Decimal.Nil.
Proof.
  rewrite <- (Unsigned.of_to n) at 1. rewrite Unsigned.to_of.
  apply DecimalFacts.unorm_nonnil.
Qed.

Lemma unlit_lit (s : string) : unlit (lit s) = s.
Proof.
  induction s as [|a s IH]; simpl; [reflexivity|].
  now rewrite ascii_N_embedding, IH.
Qed.

(** The numeral printed for [n] reads back as [n]. *)
Lemma nat_of_str_of_nat (n : nat) : nat_of_str (str_of_nat n) = Some n.
Proof.
  unfold nat_of_str, str_of_nat. rewrite unlit_lit.
  rewrite NilZero.usu by apply to_uint_not_nil.
  simpl. now rewrite Unsigned.of_to.
Qed.

Lemma starts_with_prefix (p rest : str) : starts_with p (p ++ rest) = true.
Proof.
  induction p as [|x p IH]; simpl; [reflexivity|].
  unfold char_eqb. now rewrite N.eqb_refl.
Qed.

Lemma app_eq_length {A : Type} (a b c d : list A) :
  a ++ b = c ++ d -> length a = length c -> a = c /\ b = d.
Proof.
  revert c. induction a as [|x a IH]; intros [|y c] H Hlen;
    try discriminate; simpl in *.
  - split; [reflexivity | assumption].
  - injection H as -> H. injection Hlen as Hlen.
    destruct (IH c H Hlen) as [-> ->]. split; reflexivity.
Qed.

Lemma split_sep_go_pieces (sep : str) :
  sep <> [] ->
  forall n s cur,
    length s <= n ->
    (forall pre post,
        rev cur ++ s = pre ++ sep ++ post -> length cur <= length pre) ->
    pieces sep (rev cur ++ s) (split_sep_go sep 0 cur s).
Proof.
  intros Hsep. induction n as [|n IH]; intros s cur Hlen Hfirst.
  - destruct s; [|simpl in Hlen; lia].
    cbn [split_sep_go]. rewrite app_nil_r in *. apply pieces_last.
    intros pre post E. specialize (Hfirst pre post E).
    apply (f_equal (@length _)) in E.
    rewrite !length_app, length_rev in E.
    destruct sep; [congruence | simpl in E; lia].
  - destruct s as [|c s].
    + cbn [split_sep_go]. rewrite app_nil_r in *. apply pieces_last.
      intros pre post E. specialize (Hfirst pre post E).
      apply (f_equal (@length _)) in E.
      rewrite !length_app, length_rev in E.
      destruct sep; [congruence | simpl in E; lia].
    + cbn [split_sep_go].
      destruct (starts_with sep (c :: s)) eqn:Hst.
      * destruct (starts_with_app _ _ Hst) as [rest Hrest].
        rewrite Hrest in Hfirst |- *.
        destruct sep as [|x sep']; [congruence|].
        injection Hrest as -> ->.
        cbn [length Nat.sub]. rewrite Nat.sub_0_r.
        rewrite split_sep_go_skip.
        apply pieces_cut.
        -- intros pre post E. rewrite length_rev.
           now apply Hfirst with post.
        -- apply (IH rest []).
           ++ simpl in Hlen. rewrite length_app in Hlen. lia.
           ++ intros pre post _. simpl. lia.
      * replace (rev cur ++ c :: s) with (rev (c :: cur) ++ s)
          by (simpl; now rewrite <- app_assoc).
        apply IH; [simpl in Hlen; lia|].
        intros pre post E. simpl in E. rewrite <- app_assoc in E. simpl in E.
        pose proof (Hfirst pre post E) as Hle.
        destruct (Nat.eq_dec (length pre) (length cur)) as [Heq|Hne];
          [|simpl; lia].
        exfalso.
        destruct (app_eq_length _ _ _ _ E) as [_ Hs];
          [now rewrite length_rev|].
        rewrite Hs, starts_with_prefix in Hst. discriminate.
Qed.

Lemma split_sep_pieces (sep s : str) :
  sep <> [] -> pieces sep s (split_sep sep s).
Proof.
  intros Hsep. unfold split_sep.
  apply (split_sep_go_pieces Hsep (n := length s) s []); [lia|].
  intros pre post _. simpl. lia.
Qed.

Lemma pieces_unique (sep s : str) (l1 l2 : list str) :
  sep <> [] -> pieces sep s l1 -> pieces sep s l2 -> l1 = l2.
Proof.
  intros Hsep H1. revert l2.
  induction H1 as [s Hno | b rest l Hfirst Hrest IH]; intros l2 H2.
  - inversion H2 as [s' Hno' | b' rest' l' Hfirst' Hrest' E]; subst;
      [reflexivity|].
    exfalso. now apply (Hno b' rest').
  - inversion H2 as [s' Hno' | b' rest' l' Hfirst' Hrest' E]; subst.
    + exfalso. now apply (Hno' b rest).
    + pose proof (Hfirst b' rest' (eq_sym E)) as Hle1.
      pose proof (Hfirst' b rest E) as Hle2.
      destruct (app_eq_length _ _ _ _ E) as [-> Htail]; [lia|].
      apply app_inv_head in Htail. subst rest'.
      f_equal. now apply IH.
Qed.

(** The pieces of [s] are those of [s.split(sep)]. *)
Lemma pieces_split_sep (sep s : str) (l : list str) :
  sep <> [] -> (pieces sep s l <-> l = split_sep sep s).
Proof.
  intros Hsep. split.
  - intros H. exact (pieces_unique Hsep H (split_sep_pieces s Hsep)).
  - intros ->. now apply split_sep_pieces.
Qed.

Lemma filter_count_occ (c : char) (s : str) :
  length (filter (char_eqb c) s) = count_occ N.eq_dec s c.
Proof.
  induction s as [|x s IH]; [reflexivity|].
  cbn [filter count_occ]. unfold char_eqb at 1.
  destruct (N.eq_dec x c) as [->|Hne].
  - rewrite N.eqb_refl. simpl. now rewrite IH.
  - destruct (N.eqb_spec c x); [congruence | exact IH].
Qed.

Lemma select_filter {A : Type} (P : A -> Prop) (f : A -> bool) :
  (forall x, P x <-> f x = true) ->
  forall l l', select P l l' <-> l' = filter f l.
Proof.
  intros Hf l l'. split.
  - induction 1 as [| x l l' Hx _ IH | x l l' Hx _ IH]; simpl.
    + reflexivity.
    + apply Hf in Hx. rewrite Hx. now f_equal.
    + destruct (f x) eqn:E; [apply Hf in E; contradiction | exact IH].
  - intros ->. induction l as [|x l IH]; simpl; [constructor|].
    destruct (f x) eqn:E.
    + apply select_keep; [now apply Hf | exact IH].
    + apply select_drop; [|exact IH].
      intros Hx. apply Hf in Hx. congruence.
Qed.

Lemma Forall2_map_iff {A B : Type} (R : A -> B -> Prop) (f : A -> B) :
  (forall x y, R x y <-> y = f x) ->
  forall l l', Forall2 R l l' <-> l' = map f l.
Proof.
  intros Hf l l'. split.
  - induction 1 as [|x y l l' Hxy _ IH]; simpl; [reflexivity|].
    apply Hf in Hxy. congruence.
  - intros ->. induction l as [|x l IH]; simpl; constructor;
      [now apply Hf | exact IH].
Qed.

Lemma lowers_ascii_lower (c c' : char) :
  lowers c c' <-> c' = Tools.ascii_lower c.
Proof.
  unfold lowers, Tools.ascii_lower.
  destruct (N.leb_spec 65 c), (N.leb_spec c 90); simpl; split;
    try (intros [[H1 H2]|[H1 H2]]; subst; try reflexivity; lia);
    intros ->; (left; split; [lia | reflexivity])
               || (right; split; [lia | reflexivity]).
Qed.

Lemma ascii_forallb (s : str) :
  ascii s <-> forallb Tools.is_ascii s = true.
Proof.
  unfold ascii. rewrite Forall_forall, forallb_forall.
  split; intros H c Hc; specialize (H c Hc); unfold Tools.is_ascii in *;
    now apply N.ltb_lt.
Qed.

Lemma lowercase_of_lower (U : Tools.Unicode) (text lowered : str) :
  lowercase_of U text lowered <-> lowered = Tools.lower U text.
Proof.
  unfold lowercase_of, Tools.lower.
  pose proof (ascii_forallb text) as Ha.
  pose proof (Forall2_map_iff lowers Tools.ascii_lower lowers_ascii_lower
                text lowered) as Hl.
  destruct (forallb Tools.is_ascii text).
  - split.
    + intros [[_ H]|[H _]]; [now apply Hl|].
      exfalso. apply H. now apply Ha.
    + intros H. left. split; [now apply Ha | now apply Hl].
  - split.
    + intros [[H _]|[_ H]]; [|exact H].
      apply Ha in H. discriminate.
    + intros H. right. split; [|exact H].
      intros H'. apply Ha in H'. discriminate.
Qed.

Lemma alnum_char_isalnum (U : Tools.Unicode) (c : char) :
  alnum_char U c <-> Tools.isalnum U c = true.
Proof.
  unfold alnum_char, Tools.isalnum, Tools.is_ascii, Tools.ascii_isalnum.
  destruct (N.ltb_spec c 128) as [Hlt|Hge].
  - rewrite !orb_true_iff, !andb_true_iff, !N.leb_le. split.
    + intros [H|[H _]]; [|lia]. destruct H as [H|[H|H]]; auto.
    + intros [[H|H]|H]; left; auto.
  - split.
    + intros [H|[_ H]]; [lia | exact H].
    + intros H'. right. split; [lia | exact H'].
Qed.

Lemma keep_word_spec (t : str) :
  (3 < length t /\ ~ stop_word t) <-> Tools.keep_word t = true.
Proof.
  unfold Tools.keep_word, Tools.is_common, stop_word.
  rewrite andb_true_iff, Nat.ltb_lt, negb_true_iff.
  split; intros [H3 Hs]; split; try assumption.
  - destruct (existsb (str_eqb t) Tools.common_words) eqn:E; [|reflexivity].
    apply existsb_exists in E as (x & Hx & Ex).
    apply str_eqb_eq in Ex. subst. contradiction.
  - intros Hin.
    assert (E : existsb (str_eqb t) Tools.common_words = true).
    { apply existsb_exists. exists t. split; [assumption|].
      apply str_eqb_refl. }
    congruence.
Qed.

(** The theme tokens read off the text are the ones the code counts. *)
Lemma theme_tokens_of_code (U : Tools.Unicode) (text : str)
    (toks : list str) :
  theme_tokens_of U text toks <-> toks = theme_tokens U text.
Proof.
  unfold theme_tokens_of, theme_tokens. split.
  - intros (lowered & words & cleaned & Hl & Hw & Hc & Hk).
    apply lowercase_of_lower in Hl. subst lowered.
    apply tokenized_split in Hw. subst words.
    apply (Forall2_map_iff (select (alnum_char U)) (Tools.clean_word U)) in Hc.
    + subst cleaned.
      now apply (select_filter _ Tools.keep_word keep_word_spec) in Hk.
    + intros w c. unfold Tools.clean_word.
      apply select_filter. apply alnum_char_isalnum.
  - intros ->.
    exists (Tools.lower U text), (split (Tools.lower U text)),
      (map (Tools.clean_word U) (split (Tools.lower U text))).
    split; [now apply lowercase_of_lower|].
    split; [now apply tokenized_split|].
    split.
    + apply (Forall2_map_iff (select (alnum_char U)) (Tools.clean_word U));
        [|reflexivity].
      intros w c. unfold Tools.clean_word.
      apply select_filter. apply alnum_char_isalnum.
    + now apply (select_filter _ Tools.keep_word keep_word_spec).
Qed.

(** C9.  [analyze_text_structure] returns the fixed notice for a text
    of whitespace only (or empty).  Otherwise it returns the report of:
    the number of whitespace-delimited tokens, the number of characters,
    the number of pieces between newlines, the number of pieces between
    blank lines (two newlines in a row) that have a character other
    than whitespace, and [multi-paragraph] exactly when that last number
    exceeds one, [single-block] otherwise.  The printed numbers read
    back as the counts. *)
Theorem C9_analyze_text_structure (text : str) :
  (forallb isspace text = true ->
   Tools.analyze_text_structure text = lit "Empty text provided")
  /\ (forallb isspace text = false ->
      forall words text_lines blocks,
        tokenized text words ->
        pieces [10%N] text text_lines ->
        pieces [10%N; 10%N] text blocks ->
        let paragraphs :=
          length (filter (fun b => negb (forallb isspace b)) blocks) in
        Tools.analyze_text_structure text
        = report_text (length words) (length text) (length text_lines)
            paragraphs
            (if 1 <? paragraphs
             then lit "multi-paragraph" else lit "single-block"))
  /\ (exists words text_lines blocks,
        tokenized text words
        /\ pieces [10%N] text text_lines
        /\ pieces [10%N; 10%N] text blocks)
  /\ (forall text_lines,
        pieces [10%N] text text_lines ->
        length text_lines = S (count_occ N.eq_dec text 10%N))
  /\ (forall blocks,
        pieces [10%N; 10%N] text blocks -> join [10%N; 10%N] blocks = text)
  /\ (forall n, nat_of_str (str_of_nat n) = Some n)
  /\ Tools.analyze_text_structure (lines [lit "a"; []; lit "b"])
     = report_text 2 4 3 2 (lit "multi-paragraph")
  /\ report_text 2 4 3 2 (lit "multi-paragraph")
     = lit "Text Analysis: "
       ++ lines
            [ lit "{";
              lit "  " ++ [34%N] ++ lit "word_count" ++ [34%N] ++ lit ": 2,";
              lit "  " ++ [34%N] ++ lit "character_count" ++ [34%N]
                ++ lit ": 4,";
              lit "  " ++ [34%N] ++ lit "line_count" ++ [34%N] ++ lit ": 3,";
              lit "  " ++ [34%N] ++ lit "paragraph_count" ++ [34%N]
                ++ lit ": 2,";
              lit "  " ++ [34%N] ++ lit "structure" ++ [34%N] ++ lit ": "
                ++ [34%N] ++ lit "multi-paragraph" ++ [34%N];
              lit "}" ].
Proof.
  split.
  { intros Hb. unfold Tools.analyze_text_structure.
    now rewrite strip_truthy_forallb, Hb. }
  split.
  { intros Hb words text_lines blocks Hw Hl Hp paragraphs.
    apply tokenized_split in Hw.
    apply pieces_split_sep in Hl; [|discriminate].
    apply pieces_split_sep in Hp; [|discriminate].
    subst paragraphs words text_lines blocks.
    unfold Tools.analyze_text_structure.
    rewrite strip_truthy_forallb, Hb. cbn [negb].
    unfold Tools.analysis, Tools.json_dumps, report_text.
    cbn [Tools.word_count Tools.character_count Tools.line_count
         Tools.paragraph_count Tools.structure].
    rewrite (filter_ext (fun p => truthy (strip p))
               (fun b => negb (forallb isspace b)))
      by (intros p; apply strip_truthy_forallb).
    reflexivity. }
  split.
  { exists (split text), (split_sep [10%N] text),
      (split_sep [10%N; 10%N] text).
    split; [apply split_tokenized|].
    split; apply split_sep_pieces; discriminate. }
  split.
  { intros text_lines Hl.
    apply pieces_split_sep in Hl; [|discriminate]. subst text_lines.
    unfold split_sep. rewrite split_sep_char_length.
    now rewrite filter_count_occ. }
  split.
  { intros blocks Hp.
    apply pieces_split_sep in Hp; [|discriminate]. subst blocks.
    apply join_split_sep. discriminate. }
  split; [apply nat_of_str_of_nat|].
  split; vm_compute; reflexivity.
Qed.

Lemma C9_witness :
  Tools.analyze_text_structure (lit "   ") = lit "Empty text provided"
  /\ Tools.analyze_text_structure (lit "one block")
     = report_text 2 9 1 1 (lit "single-block").
Proof.
  pose proof (C9_analyze_text_structure (lit "   ")) as (H1 & _).
  pose proof (C9_analyze_text_structure (lit "one block")) as (_ & H2 & _).
  split; [apply H1; reflexivity|].
  apply (H2 eq_refl [lit "one"; lit "block"] [lit "one block"]
           [lit "one block"]).
  - apply tokenized_split. reflexivity.
  - apply pieces_split_sep; [discriminate | reflexivity].
  - apply pieces_split_sep; [discriminate | reflexivity].
Defined.

(** *** Counting and ranking the themes *)

Lemma count_words_fold (U : Tools.Unicode) (words : list str) :
  forall acc,
    fold_left
      (fun word_freq word =>
         let clean := Tools.clean_word U word in
         if Tools.keep_word clean then Tools.dict_incr word_freq clean
         else word_freq) words acc
    = fold_left Tools.dict_incr
        (filter Tools.keep_word (map (Tools.clean_word U) words)) acc.
Proof.
  induction words as [|word words IH]; intros acc; [reflexivity|].
  cbn [fold_left map filter].
  destruct (Tools.keep_word (Tools.clean_word U word)); cbn [fold_left];
    apply IH.
Qed.


Section Sorting.

Context {A : Type}.

Lemma StronglySorted_snoc (R : A -> A -> Prop) (l : list A) (x : A) :
  StronglySorted R l -> Forall (fun a => R a x) l ->
  StronglySorted R (l ++ [x]).
Proof.
  induction 1 as [|a l Hl IH Ha]; intros Hx; simpl.
  - repeat constructor.
  - inversion Hx; subst. constructor.
    + now apply IH.
    + apply Forall_app. split; [assumption | now constructor].
Qed.

Lemma StronglySorted_impl_in (R R' : A -> A -> Prop) (l : list A) :
  (forall a b, In a l -> In b l -> R a b -> R' a b) ->
  StronglySorted R l -> StronglySorted R' l.
Proof.
  intros Himp H. induction H as [|a l Hl IH Ha]; constructor.
  - apply IH. intros x y Hx Hy. apply Himp; now right.
  - rewrite Forall_forall in *. intros b Hb.
    apply Himp; [now left | now right | now apply Ha].
Qed.

Lemma StronglySorted_map {B : Type} (f : A -> B) (R : B -> B -> Prop)
    (l : list A) :
  StronglySorted (fun a b => R (f a) (f b)) l <-> StronglySorted R (map f l).
Proof.
  induction l as [|a l IH]; simpl.
  - split; constructor.
  - split; intros H; apply StronglySorted_inv in H as [Hl Ha];
      constructor; try (now apply IH).
    + rewrite Forall_map. exact Ha.
    + rewrite Forall_map in Ha. exact Ha.
Qed.

End Sorting.

Lemma insert_desc_perm (x : str * nat) (l : list (str * nat)) :
  Permutation (Tools.insert_desc x l) (x :: l).
Proof.
  induction l as [|y l IH]; simpl; [reflexivity|].
  destruct (snd y <=? snd x); [reflexivity|].
  rewrite IH. apply perm_swap.
Qed.

Lemma sorted_desc_perm (l : list (str * nat)) :
  Permutation (Tools.sorted_desc l) l.
Proof.
  induction l as [|x l IH]; simpl; [reflexivity|].
  rewrite insert_desc_perm. now constructor.
Qed.

Section Stable.

(** [before] is the order of the items ahead of the sort. *)
Variable before : str * nat -> str * nat -> Prop.

Lemma insert_desc_sorted (x : str * nat) (l : list (str * nat)) :
  StronglySorted (ranked_before before) l -> Forall (before x) l ->
  StronglySorted (ranked_before before) (Tools.insert_desc x l).
Proof.
  unfold ranked_before.
  induction 1 as [|y l Hl IH Hy]; intros Hx; simpl.
  - repeat constructor.
  - inversion Hx as [|? ? Hxy Hxl]; subst.
    destruct (snd y <=? snd x) eqn:E.
    + apply Nat.leb_le in E. constructor; [now constructor|].
      constructor.
      * destruct (Nat.eq_dec (snd x) (snd y)); [right | left]; auto; lia.
      * rewrite Forall_forall in *. intros z Hz.
        specialize (Hy z Hz). specialize (Hxl z Hz).
        destruct (Nat.eq_dec (snd x) (snd z)); [right | left]; auto; lia.
    + apply Nat.leb_gt in E. constructor; [now apply IH|].
      eapply Permutation_Forall.
      * symmetry. apply insert_desc_perm.
      * constructor; [left; assumption | assumption].
Qed.

(** The sort is stable: by descending count, and in the earlier order
    among equal counts. *)
Lemma sorted_desc_sorted (l : list (str * nat)) :
  StronglySorted before l ->
  StronglySorted (ranked_before before) (Tools.sorted_desc l).
Proof.
  induction 1 as [|x l Hl IH Hx]; simpl; [constructor|].
  apply insert_desc_sorted; [assumption|].
  eapply Permutation_Forall; [|exact Hx].
  symmetry. apply sorted_desc_perm.
Qed.

End Stable.

Lemma freq_snoc (seen : list str) (t k : str) :
  freq (seen ++ [t]) k = freq seen k + (if str_eqb k t then 1 else 0).
Proof.
  unfold freq. rewrite filter_app, length_app. simpl.
  destruct (str_eqb k t); reflexivity.
Qed.

Lemma freq_notin (seen : list str) (k : str) :
  ~ In k seen -> freq seen k = 0.
Proof.
  unfold freq. induction seen as [|t seen IH]; intros H; [reflexivity|].
  simpl. destruct (str_eqb k t) eqn:E.
  - apply str_eqb_eq in E. subst. exfalso. apply H. now left.
  - apply IH. intros Hin. apply H. now right.
Qed.

Lemma freq_in (seen : list str) (k : str) : In k seen -> 0 < freq seen k.
Proof.
  unfold freq. induction seen as [|t seen IH]; intros H; [destruct H|].
  simpl. destruct (str_eqb k t) eqn:E; [simpl; lia|].
  destruct H as [->|H]; [rewrite str_eqb_refl in E; discriminate|].
  now apply IH.
Qed.

Lemma first_pos_in (seen l : list str) (k : str) :
  In k seen ->
  first_pos (seen ++ l) k = first_pos seen k /\ first_pos seen k < length seen.
Proof.
  induction seen as [|t seen IH]; intros Hin; [destruct Hin|].
  simpl. destruct (str_eqb t k) eqn:E.
  - split; [reflexivity | lia].
  - destruct Hin as [->|Hin]; [rewrite str_eqb_refl in E; discriminate|].
    destruct (IH Hin) as [H1 H2]. split; lia.
Qed.

Lemma first_pos_new (seen : list str) (k : str) :
  ~ In k seen -> first_pos (seen ++ [k]) k = length seen.
Proof.
  induction seen as [|t seen IH]; intros Hnin; simpl.
  - now rewrite str_eqb_refl.
  - destruct (str_eqb t k) eqn:E.
    + apply str_eqb_eq in E. subst. exfalso. apply Hnin. now left.
    + rewrite IH; [reflexivity|]. intros H. apply Hnin. now right.
Qed.

Lemma dict_incr_new (d : dict nat) (t : str) :
  ~ In t (map fst d) -> Tools.dict_incr d t = d ++ [(t, 1)].
Proof.
  induction d as [|[k v] d IH]; intros H; [reflexivity|].
  simpl. destruct (str_eqb k t) eqn:E.
  - apply str_eqb_eq in E. subst. exfalso. apply H. now left.
  - rewrite IH; [reflexivity|]. intros Hin. apply H. now right.
Qed.

Lemma dict_incr_old (d1 d2 : dict nat) (t : str) (v : nat) :
  ~ In t (map fst d1) ->
  Tools.dict_incr (d1 ++ (t, v) :: d2) t = d1 ++ (t, v + 1) :: d2.
Proof.
  induction d1 as [|[k u] d1 IH]; intros H; simpl.
  - now rewrite str_eqb_refl.
  - destruct (str_eqb k t) eqn:E.
    + apply str_eqb_eq in E. subst. exfalso. apply H. now left.
    + rewrite IH; [reflexivity|]. intros Hin. apply H. now right.
Qed.

(** The dictionary after the loop: the distinct tokens in order of
    first occurrence, each with its number of occurrences. *)
Lemma counted (seen : list str) :
  exists keys,
    fold_left Tools.dict_incr seen [] = map (fun k => (k, freq seen k)) keys
    /\ NoDup keys
    /\ (forall k, In k keys <-> In k seen)
    /\ StronglySorted (fun a b => first_pos seen a < first_pos seen b) keys.
Proof.
  induction seen as [|t seen (keys & Hd & Hnd & Hin & Hord)] using rev_ind.
  - exists []. repeat split; try constructor; intros [].
  - rewrite fold_left_app. cbn [fold_left]. rewrite Hd.
    assert (Hsame : forall k, k <> t -> freq (seen ++ [t]) k = freq seen k).
    { intros k Hk. rewrite freq_snoc.
      apply str_eqb_neq in Hk. rewrite Hk. lia. }
    assert (Hpos : forall a b, In a keys -> In b keys ->
                first_pos seen a < first_pos seen b ->
                first_pos (seen ++ [t]) a < first_pos (seen ++ [t]) b).
    { intros a b Ha Hb Hab. apply Hin in Ha, Hb.
      destruct (@first_pos_in seen [t] a Ha) as [-> _].
      destruct (@first_pos_in seen [t] b Hb) as [-> _]. exact Hab. }
    destruct (in_dec (list_eq_dec N.eq_dec) t keys) as [Hold|Hnew].
    + exists keys.
      split; [|split; [assumption|split]].
      * destruct (in_split _ _ Hold) as (k1 & k2 & ->).
        apply NoDup_remove_2 in Hnd.
        rewrite !map_app. cbn [map]. rewrite dict_incr_old.
        -- f_equal; [|f_equal].
           ++ apply map_ext_in. intros k Hk. rewrite Hsame; [reflexivity|].
              intros ->. apply Hnd. apply in_app_iff. now left.
           ++ rewrite freq_snoc, str_eqb_refl. reflexivity.
           ++ apply map_ext_in. intros k Hk. rewrite Hsame; [reflexivity|].
              intros ->. apply Hnd. apply in_app_iff. now right.
        -- rewrite map_map. cbn [fst]. rewrite map_id.
           intros H. apply Hnd. apply in_app_iff. now left.
      * intros k. rewrite Hin, in_app_iff. split; [now left|].
        intros [H|[<-|[]]]; [assumption | now apply Hin].
      * eapply StronglySorted_impl_in; [|exact Hord]. exact Hpos.
    + exists (keys ++ [t]).
      split; [|split; [|split]].
      * rewrite dict_incr_new.
        -- rewrite map_app. cbn [map]. f_equal.
           ++ apply map_ext_in. intros k Hk. rewrite Hsame; [reflexivity|].
              intros ->. contradiction.
           ++ rewrite freq_snoc, str_eqb_refl, freq_notin; [reflexivity|].
              intros H. apply Hnew. now apply Hin.
        -- rewrite map_map. cbn [fst]. now rewrite map_id.
      * apply NoDup_app; [assumption | repeat constructor; intros [] |].
        intros a Ha [<-|[]]. contradiction.
      * intros k. rewrite !in_app_iff, Hin. reflexivity.
      * apply StronglySorted_snoc.
        -- eapply StronglySorted_impl_in; [|exact Hord]. exact Hpos.
        -- apply Forall_forall. intros a Ha. apply Hin in Ha.
           destruct (@first_pos_in seen [t] a Ha) as [-> Hlt].
           rewrite first_pos_new; [assumption|].
           intros H. apply Hnew. now apply Hin.
Qed.

Lemma theme_tokens_kept (U : Tools.Unicode) (text : str) :
  Forall (fun t => 3 < length t
                   /\ Tools.is_common t = false
                   /\ forallb (Tools.isalnum U) t = true)
    (theme_tokens U text).
Proof.
  unfold theme_tokens. apply Forall_forall. intros t Ht.
  apply filter_In in Ht as [Hin Hkeep].
  unfold Tools.keep_word in Hkeep. apply andb_true_iff in Hkeep as [H3 Hc].
  apply Nat.ltb_lt in H3. apply negb_true_iff in Hc.
  repeat split; try assumption.
  apply in_map_iff in Hin as (word & <- & _).
  unfold Tools.clean_word. apply forallb_forall. intros c Hc'.
  now apply filter_In in Hc'.
Qed.

(** The ranking of the themes: the counted tokens sorted by
    [outranks]. *)
Lemma themes_ranked (U : Tools.Unicode) (text : str) :
  let toks := theme_tokens U text in
  let items := Tools.sorted_desc
                 (Tools.count_words U (split (Tools.lower U text))) in
  NoDup (map fst items)
  /\ (forall k, In k (map fst items) <-> In k toks)
  /\ StronglySorted (outranks toks) (map fst items)
  /\ Forall (fun kv => snd kv = freq toks (fst kv)) items.
Proof.
  intros toks items. subst items.
  unfold Tools.count_words. rewrite count_words_fold. fold (theme_tokens U text).
  fold toks.
  destruct (counted toks) as (keys & Hd & Hnd & Hin & Hord).
  rewrite Hd.
  set (d := map (fun k => (k, freq toks k)) keys).
  assert (Hkeys : map fst d = keys).
  { subst d. rewrite map_map. cbn [fst]. apply map_id. }
  assert (Hperm : Permutation (Tools.sorted_desc d) d)
    by apply sorted_desc_perm.
  assert (Hval : Forall (fun kv => snd kv = freq toks (fst kv))
                   (Tools.sorted_desc d)).
  { eapply Permutation_Forall; [symmetry; exact Hperm|].
    subst d. apply Forall_map. apply Forall_forall. reflexivity. }
  split; [|split; [|split]].
  - eapply Permutation_NoDup; [symmetry; apply Permutation_map, Hperm|].
    now rewrite Hkeys.
  - intros k. rewrite <- Hin, <- Hkeys.
    split; apply Permutation_in; [|symmetry]; apply Permutation_map, Hperm.
  - apply -> (@StronglySorted_map (str * nat) str).
    eapply StronglySorted_impl_in;
      [|apply (sorted_desc_sorted
                 (before := fun a b => first_pos toks (fst a)
                                       < first_pos toks (fst b)))].
    + intros a b Ha Hb Hab. rewrite Forall_forall in Hval.
      unfold outranks. rewrite <- (Hval a Ha), <- (Hval b Hb). exact Hab.
    + subst d. apply -> (@StronglySorted_map str (str * nat)).
      exact Hord.
  - exact Hval.
Qed.

Lemma outranks_asym (toks : list str) (a b : str) :
  outranks toks a b -> outranks toks b a -> False.
Proof. unfold outranks. lia. Qed.

(** A ranking of the same tokens is unique. *)
Lemma ranking_unique (toks : list str) (l1 : list str) :
  forall l2,
    NoDup l1 -> NoDup l2 -> (forall k, In k l1 <-> In k l2) ->
    StronglySorted (outranks toks) l1 -> StronglySorted (outranks toks) l2 ->
    l1 = l2.
Proof.
  induction l1 as [|a l1 IH]; intros l2 Hn1 Hn2 Hsame Hs1 Hs2.
  - destruct l2 as [|b l2]; [reflexivity|].
    exfalso. apply (proj2 (Hsame b)). now left.
  - destruct l2 as [|b l2].
    + exfalso. apply (proj1 (Hsame a)). now left.
    + apply StronglySorted_inv in Hs1 as [Hs1 Ha].
      apply StronglySorted_inv in Hs2 as [Hs2 Hb].
      rewrite Forall_forall in Ha, Hb.
      inversion Hn1 as [|? ? Hna Hn1']; subst.
      inversion Hn2 as [|? ? Hnb Hn2']; subst.
      assert (a = b) as <-.
      { destruct (proj1 (Hsame a) (or_introl eq_refl)) as [E|Hin2];
          [congruence|].
        destruct (proj2 (Hsame b) (or_introl eq_refl)) as [E|Hin1];
          [congruence|].
        exfalso. exact (outranks_asym (Ha b Hin1) (Hb a Hin2)). }
      f_equal. apply IH; try assumption.
      intros k. split; intros Hk.
      * destruct (proj1 (Hsame k) (or_intror Hk)) as [<-|H];
          [contradiction | assumption].
      * destruct (proj2 (Hsame k) (or_intror Hk)) as [<-|H];
          [contradiction | assumption].
Qed.

(** C8.  [extract_key_themes] returns the fixed notice for a text of
    whitespace only (or empty).  Otherwise it returns the list of the
    themes: the text is put in lower case and cut at whitespace, each
    token is reduced to its letters and digits, the tokens of at most
    three characters and the stop words are dropped, and the themes are
    the first five of the remaining distinct tokens ranked by
    descending number of occurrences, ties going to the token that
    occurs first. *)
Theorem C8_extract_key_themes (U : Tools.Unicode) (text : str) :
  (forallb isspace text = true ->
   Tools.extract_key_themes U text = lit "No themes found in empty text")
  /\ (exists toks ranked, theme_tokens_of U text toks /\ ranking toks ranked)
  /\ (forallb isspace text = false ->
      forall toks ranked,
        theme_tokens_of U text toks -> ranking toks ranked ->
        Tools.extract_key_themes U text
        = lit "Key themes identified: ["
          ++ join (lit ", ")
               (map (fun t => lit "'" ++ t ++ lit "'") (firstn 5 ranked))
          ++ lit "]")
  /\ (forall toks ranked,
        theme_tokens_of U text toks -> ranking toks ranked ->
        map fst (Tools.top_themes U text) = firstn 5 ranked
        /\ Forall (fun kv => snd kv = freq toks (fst kv))
             (Tools.top_themes U text))
  /\ Tools.extract_key_themes U (lit "alpha alpha beta")
     = lit "Key themes identified: ['alpha', 'beta']"
  /\ Tools.extract_key_themes U
       (lit "The BETA, beta! these alpha (Alpha) ALPHA would be: a1-b2 xyz")
     = lit "Key themes identified: ['alpha', 'beta', 'a1b2']"
  /\ Tools.extract_key_themes U [] = lit "No themes found in empty text".
Proof.
  destruct (themes_ranked U text) as (Hnd & Hin & Hsort & Hval).
  set (items := Tools.sorted_desc
                  (Tools.count_words U (split (Tools.lower U text)))) in *.
  assert (Hthemes : forall toks ranked,
             theme_tokens_of U text toks -> ranking toks ranked ->
             map fst (Tools.top_themes U text) = firstn 5 ranked
             /\ Forall (fun kv => snd kv = freq toks (fst kv))
                  (Tools.top_themes U text)).
  { intros toks ranked Htoks (Hnd' & Hin' & Hsort').
    apply theme_tokens_of_code in Htoks. subst toks.
    unfold Tools.top_themes. fold items. split.
    - rewrite <- firstn_map. f_equal.
      apply (@ranking_unique (theme_tokens U text)); try assumption.
      intros k. now rewrite Hin, Hin'.
    - rewrite <- (firstn_skipn 5 items) in Hval.
      now apply Forall_app in Hval. }
  split.
  { intros Hb. unfold Tools.extract_key_themes.
    now rewrite strip_truthy_forallb, Hb. }
  split.
  { exists (theme_tokens U text), (map fst items).
    split; [now apply theme_tokens_of_code|].
    split; [exact Hnd | split; [exact Hin | exact Hsort]]. }
  split.
  { intros Hb toks ranked Htoks Hrank.
    destruct (Hthemes toks ranked Htoks Hrank) as [<- _].
    unfold Tools.extract_key_themes, Tools.repr_list.
    rewrite strip_truthy_forallb, Hb. cbn [negb].
    reflexivity. }
  split; [exact Hthemes|].
  split; [reflexivity|]. split; reflexivity.
Qed.

Lemma C8_witness :
  Tools.extract_key_themes Doubles.ascii_only (lit "alpha alpha beta")
  = lit "Key themes identified: ["
    ++ join (lit ", ")
         (map (fun t => lit "'" ++ t ++ lit "'")
            (firstn 5 [lit "alpha"; lit "beta"]))
    ++ lit "]"
  /\ Tools.extract_key_themes Doubles.ascii_only (lit "  ")
     = lit "No themes found in empty text".
Proof.
  pose proof (C8_extract_key_themes Doubles.ascii_only
                (lit "alpha alpha beta")) as (_ & _ & H3 & _).
  pose proof (C8_extract_key_themes Doubles.ascii_only (lit "  "))
    as (H1 & _).
  split; [|apply H1; reflexivity].
  apply (H3 eq_refl [lit "alpha"; lit "alpha"; lit "beta"]).
  - apply theme_tokens_of_code. reflexivity.
  - split; [|split].
    + repeat constructor; simpl; intuition discriminate.
    + intros k. simpl. tauto.
    + apply SSorted_cons; [apply SSorted_cons; constructor|].
      apply Forall_cons; [|apply Forall_nil].
      left. vm_compute. lia.
Defined.

(** * Further properties of the code *)

(** ** The agent loop *)

(** A visit whose message asks for no tool, or that reaches the bound,
    is the last of the run. *)
Lemma astream_last_visit {W : Type} (rt : Agent.Runtime)
    (self : Agent.WritingAgent W) (w : W) (st : WritingState) (fuel : nat) :
  forall w' base c tcs,
    Agent.agent_node self w st
    = (w', {| out_messages := base ++ [AIMessage c tcs];
              out_iterations := Some (iterations st + 1)%Z |}) ->
    tcs = [] \/ (max_iterations st <= iterations st + 1)%Z ->
    Agent.astream_from rt self (S (S fuel)) Agent.agent w st
    = Yield (Agent.agent, snd (Agent.agent_node self w st)) Stop.
Proof.
  intros w' base c tcs E Hlast.
  rewrite astream_from_step. cbn [Agent.run_node]. rewrite E. cbn [snd].
  unfold Agent.next_node. rewrite should_continue_agent.
  destruct Hlast as [-> | Hmax].
  - destruct (max_iterations st <=? iterations st + 1)%Z; reflexivity.
  - apply Z.leb_le in Hmax. now rewrite Hmax.
Qed.

(** X1.  When the answer of the model carries no tool call, the run is
    that one agent visit, whatever [iterations] and [max_iterations]
    are (the step bound being at least two): the tool node is not run
    and the model is not called again. *)
Theorem X1_no_tool_call_ends_run {W : Type} (rt : Agent.Runtime)
    (self : Agent.WritingAgent W) (gw : Agent.gateway W) (w w1 : W)
    (st : WritingState) (c : str) (fuel : nat) :
  Agent.llm self = Some gw ->
  gw w (match messages st with
        | [] => Agent.initial_messages (action st) (content st) (context st)
        | _ :: _ => messages st
        end) = (w1, inr (c, [])) ->
  let tr := Agent.astream_from rt self (S (S fuel)) Agent.agent w st in
  nodes_run tr = [Agent.agent]
  /\ reaches_end tr
  /\ flat_map Agent.fragments_of (yielded tr)
     = if truthy c then Agent.stream_words c else [].
Proof.
  intros Hllm Hgw tr. subst tr.
  destruct (agent_node_cases self w st)
    as (w' & base & c' & tcs & E & Hbase & Hcase).
  subst base. rewrite Hllm, Hgw in Hcase. destruct Hcase as (-> & -> & ->).
  erewrite astream_last_visit; [| exact E | left; reflexivity].
  rewrite E. unfold nodes_run, reaches_end.
  cbn [yielded raised map fst snd flat_map Agent.fragments_of out_messages].
  rewrite last_message_snoc, app_nil_r. repeat split.
Qed.

Lemma X1_witness :
  let tr := Agent.astream_from Doubles.rt25
              (Doubles.agent_with (Doubles.gw_say (lit "Hello world"))) 25
              Agent.agent tt (Doubles.state0 (lit "generate") 3) in
  nodes_run tr = [Agent.agent]
  /\ reaches_end tr
  /\ flat_map Agent.fragments_of (yielded tr) = [lit "Hello "; lit "world "].
Proof.
  apply (@X1_no_tool_call_ends_run unit Doubles.rt25
           (Doubles.agent_with (Doubles.gw_say (lit "Hello world")))
           (Doubles.gw_say (lit "Hello world")) tt tt
           (Doubles.state0 (lit "generate") 3) (lit "Hello world") 23);
    reflexivity.
Defined.

(** X2.  When [max_iterations <= iterations + 1] at the start (and the
    step bound is at least two), the run is one agent visit even if the
    model asks for tools: the requested tools are not dispatched. *)
Theorem X2_bound_reached_ends_run {W : Type} (rt : Agent.Runtime)
    (self : Agent.WritingAgent W) (w : W) (st : WritingState) (fuel : nat) :
  (max_iterations st <= iterations st + 1)%Z ->
  let tr := Agent.astream_from rt self (S (S fuel)) Agent.agent w st in
  tr = Yield (Agent.agent, snd (Agent.agent_node self w st)) Stop
  /\ visits Agent.agent tr = 1
  /\ visits Agent.tools tr = 0
  /\ reaches_end tr.
Proof.
  intros Hmax tr. subst tr.
  destruct (agent_node_cases self w st)
    as (w' & base & c & tcs & E & _ & _).
  erewrite astream_last_visit; [| exact E | right; exact Hmax].
  repeat split.
Qed.

Lemma X2_witness :
  let tr := Agent.astream_from Doubles.rt25
              (Doubles.agent_with Doubles.gw_tool) 25 Agent.agent tt
              (Doubles.state0 (lit "generate") 1) in
  tr = Yield (Agent.agent,
              snd (Agent.agent_node (Doubles.agent_with Doubles.gw_tool) tt
                     (Doubles.state0 (lit "generate") 1))) Stop
  /\ visits Agent.agent tr = 1
  /\ visits Agent.tools tr = 0
  /\ reaches_end tr.
Proof.
  apply (@X2_bound_reached_ends_run unit Doubles.rt25
           (Doubles.agent_with Doubles.gw_tool) tt
           (Doubles.state0 (lit "generate") 1) 23).
  simpl. lia.
Defined.

Lemma astream_alternates {W : Type} (rt : Agent.Runtime)
    (self : Agent.WritingAgent W) (fuel : nat) :
  forall n w st,
    alternates n (nodes_run (Agent.astream_from rt self fuel n w st)) = true.
Proof.
  unfold nodes_run.
  induction fuel as [|fuel IH]; intros n w st; [reflexivity|].
  rewrite astream_from_step.
  destruct (Agent.run_node rt self n w st) as [e|[w' out]]; [reflexivity|].
  cbn [yielded map fst alternates].
  destruct n; cbn [node_eqb andb other_node Agent.next_node].
  - destruct (Agent.should_continue (apply_output st out));
      [apply IH | destruct fuel; reflexivity].
  - apply IH.
Qed.

Lemma astream_ends_on_agent {W : Type} (rt : Agent.Runtime)
    (self : Agent.WritingAgent W) (fuel : nat) :
  forall n w st,
    reaches_end (Agent.astream_from rt self fuel n w st) ->
    exists l, nodes_run (Agent.astream_from rt self fuel n w st)
              = l ++ [Agent.agent].
Proof.
  unfold nodes_run, reaches_end.
  induction fuel as [|fuel IH]; intros n w st Hend; [discriminate|].
  rewrite astream_from_step in *.
  destruct (Agent.run_node rt self n w st) as [e|[w' out]]; [discriminate|].
  cbn [yielded raised map fst] in *.
  destruct n; cbn [Agent.next_node] in *.
  - destruct (Agent.should_continue (apply_output st out)).
    + destruct (IH _ _ _ Hend) as [l ->]. now exists (Agent.agent :: l).
    + destruct fuel; [discriminate | now exists []].
  - destruct (IH _ _ _ Hend) as [l ->]. now exists (Agent.tools :: l).
Qed.

Lemma alternates_counts (l : list Agent.node) :
  forall n,
    alternates n l = true ->
    let a := length (filter (node_eqb Agent.agent) l) in
    let t := length (filter (node_eqb Agent.tools) l) in
    match n with
    | Agent.agent => t <= a <= S t
    | Agent.tools => a <= t <= S a
    end.
Proof.
  induction l as [|m l IH]; intros n H; [destruct n; simpl; lia|].
  cbn [alternates] in H. apply andb_true_iff in H as [Hn Hl].
  specialize (IH _ Hl).
  destruct n, m; try discriminate; cbn [other_node] in IH; simpl in *; lia.
Qed.

Lemma alternates_counts_end (l : list Agent.node) :
  forall n,
    alternates n (l ++ [Agent.agent]) = true ->
    let a := length (filter (node_eqb Agent.agent) (l ++ [Agent.agent])) in
    let t := length (filter (node_eqb Agent.tools) (l ++ [Agent.agent])) in
    match n with
    | Agent.agent => a = S t
    | Agent.tools => a = t
    end.
Proof.
  induction l as [|m l IH]; intros n H.
  - destruct n; [reflexivity | discriminate].
  - cbn [app alternates] in H. apply andb_true_iff in H as [Hn Hl].
    specialize (IH _ Hl).
    destruct n, m; try discriminate; cbn [other_node] in IH; simpl in *; lia.
Qed.

Lemma astream_node_counts {W : Type} (rt : Agent.Runtime)
    (self : Agent.WritingAgent W) (fuel : nat) (w : W) (st : WritingState) :
  let tr := Agent.astream_from rt self fuel Agent.agent w st in
  visits Agent.tools tr <= visits Agent.agent tr <= S (visits Agent.tools tr)
  /\ (reaches_end tr -> visits Agent.agent tr = S (visits Agent.tools tr)).
Proof.
  intros tr.
  pose proof (astream_alternates rt self fuel Agent.agent w st) as Halt.
  fold tr in Halt. split.
  - exact (alternates_counts _ _ Halt).
  - intros Hend.
    destruct (astream_ends_on_agent rt self fuel Agent.agent w st Hend)
      as [l Hl].
    fold tr in Hl. unfold visits. rewrite Hl in *.
    exact (alternates_counts_end _ _ Halt).
Qed.

(** X3.  In every run the two nodes alternate, starting with the agent
    node: the tool node runs at most as often as the agent node and the
    agent node at most once more; a run that reaches [END] made exactly
    one agent visit more than tool visits. *)
Theorem X3_nodes_alternate {W : Type} (rt : Agent.Runtime)
    (self : Agent.WritingAgent W) (fuel : nat) (w : W) (st : WritingState) :
  let tr := Agent.astream_from rt self fuel Agent.agent w st in
  alternates Agent.agent (nodes_run tr) = true
  /\ visits Agent.tools tr <= visits Agent.agent tr <= S (visits Agent.tools tr)
  /\ (reaches_end tr -> visits Agent.agent tr = S (visits Agent.tools tr)).
Proof.
  intros tr. split.
  - apply astream_alternates.
  - apply astream_node_counts.
Qed.

Lemma X3_witness :
  let tr := Agent.astream_from Doubles.rt25
              (Doubles.agent_with Doubles.gw_tool) 25 Agent.agent tt
              (Doubles.state0 (lit "generate") 3) in
  visits Agent.agent tr = S (visits Agent.tools tr).
Proof.
  intros tr.
  destruct (@X3_nodes_alternate unit Doubles.rt25
              (Doubles.agent_with Doubles.gw_tool) 25 tt
              (Doubles.state0 (lit "generate") 3)) as (_ & _ & H).
  apply H. reflexivity.
Defined.

(** X4.  A visit of the agent node keeps the conversation it receives
    and appends exactly one assistant message; the system and user
    messages are built only when the conversation is empty. *)
Theorem X4_agent_node_appends_one_message {W : Type}
    (self : Agent.WritingAgent W) (w : W) (st : WritingState) :
  let out := snd (Agent.agent_node self w st) in
  (messages st <> [] ->
   exists c tcs, out_messages out = messages st ++ [AIMessage c tcs])
  /\ (messages st = [] ->
      exists c tcs,
        out_messages out
        = [ SystemMessage (Agent.system_prompt (action st));
            HumanMessage (Agent.user_message (action st) (content st)
                            (context st));
            AIMessage c tcs ])
  /\ (Agent.llm self = None ->
      fst (Agent.agent_node self w st) = w
      /\ last_message (out_messages out)
         = Some (AIMessage (Agent.mock_response (action st)) [])).
Proof.
  intros out. subst out.
  destruct (agent_node_cases self w st)
    as (w' & base & c & tcs & E & Hbase & Hcase).
  rewrite E. cbn [fst snd out_messages].
  split; [|split].
  - intros Hne. exists c, tcs. subst base.
    destruct (messages st); [congruence | reflexivity].
  - intros Hnil. exists c, tcs. subst base. now rewrite Hnil.
  - intros Hllm. rewrite Hllm in Hcase. destruct Hcase as (-> & -> & ->).
    split; [reflexivity | apply last_message_snoc].
Qed.

Lemma X4_witness :
  let st := Doubles.state0 (lit "edit") 3 in
  exists c tcs,
    out_messages (snd (Agent.agent_node Doubles.agent_mock tt st))
    = [ SystemMessage (Agent.system_prompt (lit "edit"));
        HumanMessage (Agent.user_message (lit "edit") (lit "a prompt") []);
        AIMessage c tcs ].
Proof.
  intros st.
  destruct (@X4_agent_node_appends_one_message unit Doubles.agent_mock tt st)
    as (_ & H & _).
  apply H. reflexivity.
Defined.

(** ** The generators and the endpoints *)

(** X5.  A request through [generate_text], [edit_text] or
    [improve_text] starts with [max_iterations = 3]: with a tool node
    that does not raise and a step bound of at least six, the run ends
    normally after at most three calls of the model and two tool
    dispatches, and every fragment streamed is a token followed by one
    space (no error text). *)
Theorem X5_request_cost {W : Type} (rt : Agent.Runtime)
    (self : Agent.WritingAgent W) (act prefix : str) (w : W) (text : str)
    (ctx : option (dict str)) :
  Agent.graph self = true -> tool_node_total rt ->
  6 <= Agent.recursion_limit rt ->
  let tr := Agent.astream rt self w (request_state act text ctx) in
  reaches_end tr
  /\ visits Agent.agent tr <= 3
  /\ visits Agent.tools tr <= 2
  /\ yielded (Agent.stream_action rt self act prefix w text ctx)
     = flat_map Agent.fragments_of (yielded tr)
  /\ Forall (fun f => exists t, token t /\ f = t ++ lit " ")
       (yielded (Agent.stream_action rt self act prefix w text ctx)).
Proof.
  intros Hgraph Htool Hlimit tr.
  assert (Hend : reaches_end tr).
  { apply astream_reaches_end; [assumption|].
    unfold need, slack, Agent.entry_point.
    cbn [request_state max_iterations iterations]. lia. }
  assert (Hagent : visits Agent.agent tr <= 3).
  { pose proof (astream_agent_visits rt self (Agent.recursion_limit rt)
                  Agent.entry_point w (request_state act text ctx)) as H.
    fold (Agent.astream rt self w (request_state act text ctx)) in H.
    fold tr in H. unfold slack in H.
    cbn [request_state max_iterations iterations] in H. lia. }
  assert (Hyield : yielded (Agent.stream_action rt self act prefix w text ctx)
                   = flat_map Agent.fragments_of (yielded tr)).
  { rewrite stream_action_yielded. cbv zeta. rewrite Hgraph.
    fold (request_state act text ctx). fold tr.
    unfold reaches_end in Hend. now rewrite Hend, app_nil_r. }
  split; [exact Hend|]. split; [exact Hagent|]. split.
  - destruct (astream_node_counts rt self (Agent.recursion_limit rt) w
                (request_state act text ctx)) as (_ & H).
    specialize (H Hend).
    unfold tr, Agent.astream, Agent.entry_point in *. lia.
  - split; [exact Hyield|].
    rewrite Hyield. apply flat_map_fragments_tokens.
Qed.

Lemma X5_witness :
  let tr := Agent.astream Doubles.rt25 (Doubles.agent_with Doubles.gw_tool) tt
              (request_state (lit "generate") (lit "x") None) in
  reaches_end tr
  /\ visits Agent.agent tr <= 3
  /\ visits Agent.tools tr <= 2.
Proof.
  intros tr.
  destruct (@X5_request_cost unit Doubles.rt25
              (Doubles.agent_with Doubles.gw_tool) (lit "generate")
              (lit "Error generating text: ") tt (lit "x") None)
    as (H1 & H2 & H3 & _);
    [reflexivity | exact tool_node_ok_total | simpl; lia |].
  split; [exact H1 | split; [exact H2 | exact H3]].
Defined.

Lemma mock_mode_fragments {W : Type} (rt : Agent.Runtime)
    (self : Agent.WritingAgent W) (act prefix : str) (w : W) (text : str)
    (ctx : option (dict str)) :
  Agent.llm self = None -> Agent.graph self = true ->
  2 <= Agent.recursion_limit rt ->
  truthy (Agent.mock_response act) = true ->
  yielded (Agent.stream_action rt self act prefix w text ctx)
  = Agent.stream_words (Agent.mock_response act).
Proof.
  intros Hllm Hgraph Hlimit Htruthy.
  rewrite stream_action_yielded. cbv zeta. rewrite Hgraph.
  unfold Agent.astream, Agent.entry_point.
  destruct (Agent.recursion_limit rt) as [|[|fuel]]; [lia | lia |].
  match goal with
  | |- context [Agent.astream_from rt self (S (S fuel)) Agent.agent w ?s] =>
      set (st := s)
  end.
  destruct (agent_node_cases self w st)
    as (w' & base & c & tcs & E & _ & Hcase).
  rewrite Hllm in Hcase. destruct Hcase as (-> & -> & ->).
  erewrite astream_last_visit; [| exact E | left; reflexivity].
  rewrite E.
  cbn [yielded raised snd flat_map Agent.fragments_of out_messages].
  rewrite last_message_snoc. subst st. cbn [action].
  now rewrite Htruthy, !app_nil_r.
Qed.

(** X6.  Without a model ([llm] is [None]) every request streams the
    words of the canned response of its action, whatever the prompt,
    the context, the tool node and the state of the world (the step
    bound being at least two). *)
Theorem X6_mock_mode_streams {W : Type} (rt : Agent.Runtime)
    (self : Agent.WritingAgent W) (w : W) (text : str)
    (ctx : option (dict str)) :
  Agent.llm self = None -> Agent.graph self = true ->
  2 <= Agent.recursion_limit rt ->
  yielded (Agent.generate_text rt self w text ctx)
  = Agent.stream_words Agent.mock_generate
  /\ yielded (Agent.edit_text rt self w text ctx)
     = Agent.stream_words (Agent.mock_other (lit "edit"))
  /\ yielded (Agent.improve_text rt self w text ctx)
     = Agent.stream_words Agent.mock_improve.
Proof.
  intros Hllm Hgraph Hlimit.
  unfold Agent.generate_text, Agent.edit_text, Agent.improve_text.
  rewrite !mock_mode_fragments by (assumption || reflexivity).
  repeat split.
Qed.

Lemma X6_witness :
  yielded (Agent.generate_text Doubles.rt25 Doubles.agent_mock tt (lit "x")
             None)
  = Agent.stream_words Agent.mock_generate.
Proof.
  assert (Hlim : 2 <= Agent.recursion_limit Doubles.rt25) by (simpl; lia).
  exact (proj1 (@X6_mock_mode_streams unit Doubles.rt25 Doubles.agent_mock tt
                  (lit "x") None eq_refl eq_refl Hlim)).
Defined.

(** X7.  When [/health] reports the agent as not ready, each of the
    three endpoints answers every request with the start event, one
    chunk carrying the error text of its generator, and the complete
    event. *)
Theorem X7_not_ready_streams {W : Type} (rt : Agent.Runtime)
    (writing_agent : Agent.WritingAgent W) (w : W)
    (g : Main.GenerateRequest) (e : Main.EditRequest)
    (i : Main.ImproveRequest) :
  Main.agent_ready (Main.health_check writing_agent) = false ->
  Main.generate_text rt writing_agent w g
  = [ Main.start_event (lit "generation");
      Main.chunk_event (lit "generation")
        (lit "Error generating text: " ++ Agent.no_graph_error);
      Main.complete_event (lit "generation") ]
  /\ Main.edit_text rt writing_agent w e
     = [ Main.start_event (lit "edit");
         Main.chunk_event (lit "edit")
           (lit "Error editing text: " ++ Agent.no_graph_error);
         Main.complete_event (lit "edit") ]
  /\ Main.improve_text rt writing_agent w i
     = [ Main.start_event (lit "improve");
         Main.chunk_event (lit "improve")
           (lit "Error improving text: " ++ Agent.no_graph_error);
         Main.complete_event (lit "improve") ].
Proof.
  unfold Main.health_check, Agent.is_ready. cbn [Main.agent_ready].
  intros Hgraph.
  unfold Main.generate_text, Main.edit_text, Main.improve_text,
    Agent.generate_text, Agent.edit_text, Agent.improve_text,
    Agent.stream_action.
  rewrite Hgraph. repeat split.
Qed.

Lemma X7_witness :
  Main.generate_text Doubles.rt25 Doubles.agent_no_graph tt
    {| Main.prompt := lit "x"; Main.generate_context := None |}
  = [ Main.start_event (lit "generation");
      Main.chunk_event (lit "generation")
        (lit "Error generating text: " ++ Agent.no_graph_error);
      Main.complete_event (lit "generation") ].
Proof.
  destruct (@X7_not_ready_streams unit Doubles.rt25 Doubles.agent_no_graph tt
              {| Main.prompt := lit "x"; Main.generate_context := None |}
              {| Main.edit_content := []; Main.edit_context := None |}
              {| Main.improve_content := []; Main.improve_context := None |}
              eq_refl) as (H & _).
  exact H.
Defined.

Lemma stream_types (g : gen str) (a : str) :
  raised g = None ->
  map Main.event_type (Main.create_sse_stream g a)
  = (a ++ lit "_start")
    :: repeat (a ++ lit "_chunk") (length (filter truthy (yielded g)))
    ++ [a ++ lit "_complete"].
Proof.
  intros Hg. rewrite create_sse_stream_shape, Hg.
  cbn [map Main.event_type]. rewrite map_app, map_map. cbn [map Main.event_type].
  f_equal. f_equal.
  induction (filter truthy (yielded g)) as [|x l IH]; [reflexivity|].
  cbn [map length repeat Main.event_type]. now rewrite IH.
Qed.

(** X8.  On the wire the stream of each endpoint is one
    [<action>_start], then only [<action>_chunk] events, then one
    [<action>_complete], with the action type of the endpoint
    ([generation], [edit], [improve]); the type [error] does not
    occur, whatever the agent, the model and the tool node do. *)
Theorem X8_endpoint_wire_types {W : Type} (rt : Agent.Runtime)
    (writing_agent : Agent.WritingAgent W) (w : W)
    (g : Main.GenerateRequest) (e : Main.EditRequest)
    (i : Main.ImproveRequest) :
  (exists k,
      map Main.event_type (Main.generate_text rt writing_agent w g)
      = lit "generation_start"
        :: repeat (lit "generation_chunk") k ++ [lit "generation_complete"])
  /\ (exists k,
        map Main.event_type (Main.edit_text rt writing_agent w e)
        = lit "edit_start"
          :: repeat (lit "edit_chunk") k ++ [lit "edit_complete"])
  /\ (exists k,
        map Main.event_type (Main.improve_text rt writing_agent w i)
        = lit "improve_start"
          :: repeat (lit "improve_chunk") k ++ [lit "improve_complete"]).
Proof.
  unfold Main.generate_text, Main.edit_text, Main.improve_text,
    Agent.generate_text, Agent.edit_text, Agent.improve_text.
  split; [|split]; eexists;
    rewrite stream_types by apply stream_action_raised; reflexivity.
Qed.

Lemma last_suffix (a : str) (x : char) (l : str) (d : char) :
  last (a ++ x :: l) d = last (x :: l) d.
Proof.
  induction a as [|y a IH]; [reflexivity|].
  cbn [app]. destruct (a ++ x :: l) eqn:E; [destruct a; discriminate|].
  cbn [last]. exact IH.
Qed.

(** X9.  The [type] of an event tells its kind: two events with the same
    type are both start, both chunk, both complete or both error
    events, whatever their action types. *)
Theorem X9_event_type_tells_kind (ev1 ev2 : Main.event) :
  Main.event_type ev1 = Main.event_type ev2 ->
  Main.is_start ev1 = Main.is_start ev2
  /\ Main.is_chunk ev1 = Main.is_chunk ev2
  /\ Main.is_complete ev1 = Main.is_complete ev2
  /\ Main.is_error ev1 = Main.is_error ev2.
Proof.
  intros H. apply (f_equal (fun s => last s 0%N)) in H.
  destruct ev1, ev2; cbn [Main.event_type] in H;
    repeat match type of H with
           | context [last (?a ++ lit ?s) _] =>
               let x := eval cbv in (lit s) in
               change (lit s) with x in H; rewrite last_suffix in H
           end;
    cbv in H; try discriminate; repeat split.
Qed.

Lemma X9_witness :
  Main.is_chunk (Main.chunk_event (lit "edit") (lit "a "))
  = Main.is_chunk (Main.chunk_event (lit "edit") (lit "b ")).
Proof.
  destruct (@X9_event_type_tells_kind
              (Main.chunk_event (lit "edit") (lit "a "))
              (Main.chunk_event (lit "edit") (lit "b ")) eq_refl)
    as (_ & H & _).
  exact H.
Defined.

(** ** The tools *)

Lemma analyze_report (text : str) :
  forallb isspace text = false ->
  let paragraphs :=
    length (filter (fun b => negb (forallb isspace b))
              (split_sep [10%N; 10%N] text)) in
  Tools.analyze_text_structure text
  = report_text (length (split text)) (length text)
      (length (split_sep [10%N] text)) paragraphs
      (if 1 <? paragraphs then lit "multi-paragraph" else lit "single-block").
Proof.
  intros Hb paragraphs. subst paragraphs.
  unfold Tools.analyze_text_structure.
  rewrite strip_truthy_forallb, Hb. cbn [negb].
  unfold Tools.analysis, Tools.json_dumps, report_text.
  cbn [Tools.word_count Tools.character_count Tools.line_count
       Tools.paragraph_count Tools.structure].
  rewrite (filter_ext (fun p => truthy (strip p))
             (fun b => negb (forallb isspace b)))
    by (intros p; apply strip_truthy_forallb).
  reflexivity.
Qed.

Lemma split_length_le (s : str) : length (split s) <= length s.
Proof.
  induction s as [|c s IH]; [reflexivity|].
  cbn [split]. destruct (isspace c); [simpl; lia|].
  destruct s as [|d s']; [simpl; lia|].
  destruct (isspace d); [simpl in *; lia|].
  destruct (split (d :: s')); simpl in *; lia.
Qed.

Lemma blocks_le_lines (s : str) :
  forall skip cur1 cur2,
    skip <= 1 ->
    length (split_sep_go [10%N; 10%N] skip cur1 s)
    <= length (split_sep_go [10%N] 0 cur2 s).
Proof.
  induction s as [|c s IH]; intros skip cur1 cur2 Hskip.
  - destruct skip; simpl; lia.
  - cbn [split_sep_go length Nat.sub].
    destruct skip as [|skip].
    + destruct (starts_with [10%N; 10%N] (c :: s)) eqn:E2.
      * assert (E1 : starts_with [10%N] (c :: s) = true).
        { simpl in *. apply andb_true_iff in E2 as [-> _]. reflexivity. }
        rewrite E1. cbn [length]. apply le_n_S. apply IH. lia.
      * destruct (starts_with [10%N] (c :: s)).
        -- cbn [length]. apply Nat.le_trans with
             (length (split_sep_go [10%N] 0 [] s)); [apply IH; lia | lia].
        -- apply IH. lia.
    + destruct (starts_with [10%N] (c :: s)).
      * cbn [length]. apply Nat.le_trans with
          (length (split_sep_go [10%N] 0 [] s)); [apply IH; lia | lia].
      * apply IH. lia.
Qed.

Lemma join_blank (sep : str) (l : list str) :
  blank sep -> Forall blank l -> blank (join sep l).
Proof.
  intros Hsep. induction 1 as [|x l Hx Hl IH]; [constructor|].
  destruct l as [|y l]; [exact Hx|].
  change (join sep (x :: y :: l)) with (x ++ sep ++ join sep (y :: l)).
  apply blank_app. split; [exact Hx|].
  apply blank_app. split; [exact Hsep | exact IH].
Qed.

Lemma some_block_not_blank (text : str) :
  forallb isspace text = false ->
  1 <= length (filter (fun b => negb (forallb isspace b))
                 (split_sep [10%N; 10%N] text)).
Proof.
  intros Hb.
  destruct (filter (fun b => negb (forallb isspace b))
              (split_sep [10%N; 10%N] text)) as [|b l] eqn:E; [|simpl; lia].
  exfalso.
  assert (Hall : Forall blank (split_sep [10%N; 10%N] text)).
  { apply Forall_forall. intros b Hin. apply blank_forallb.
    destruct (forallb isspace b) eqn:Eb; [reflexivity|].
    assert (Hf : In b (filter (fun b => negb (forallb isspace b))
                         (split_sep [10%N; 10%N] text)))
      by (apply filter_In; split; [assumption | now rewrite Eb]).
    rewrite E in Hf. destruct Hf. }
  assert (Hsep : blank [10%N; 10%N]) by (repeat constructor).
  pose proof (join_blank Hsep Hall) as Hj.
  rewrite join_split_sep in Hj by discriminate.
  apply blank_forallb in Hj. congruence.
Qed.

(** X10.  In every report of [analyze_text_structure] the counts are
    consistent: at least one word and at most as many words as
    characters, at least one paragraph and at most as many paragraphs
    as lines. *)
Theorem X10_report_counts_consistent (text : str) :
  forallb isspace text = false ->
  exists words text_lines blocks,
    tokenized text words
    /\ pieces [10%N] text text_lines
    /\ pieces [10%N; 10%N] text blocks
    /\ let paragraphs :=
         length (filter (fun b => negb (forallb isspace b)) blocks) in
       Tools.analyze_text_structure text
       = report_text (length words) (length text) (length text_lines)
           paragraphs
           (if 1 <? paragraphs
            then lit "multi-paragraph" else lit "single-block")
       /\ 1 <= length words <= length text
       /\ 1 <= paragraphs <= length text_lines.
Proof.
  intros Hb.
  exists (split text), (split_sep [10%N] text), (split_sep [10%N; 10%N] text).
  split; [apply split_tokenized|].
  split; [apply split_sep_pieces; discriminate|].
  split; [apply split_sep_pieces; discriminate|].
  split; [now apply analyze_report|].
  split.
  - split; [|apply split_length_le].
    destruct (split text) eqn:E; [|simpl; lia].
    apply split_nil_blank, blank_forallb in E. congruence.
  - split; [now apply some_block_not_blank|].
    eapply Nat.le_trans; [apply filter_length_le|].
    unfold split_sep. apply blocks_le_lines. lia.
Qed.

Lemma X10_witness :
  exists words text_lines blocks,
    tokenized (lit "one block") words
    /\ pieces [10%N] (lit "one block") text_lines
    /\ pieces [10%N; 10%N] (lit "one block") blocks
    /\ let paragraphs :=
         length (filter (fun b => negb (forallb isspace b)) blocks) in
       Tools.analyze_text_structure (lit "one block")
       = report_text (length words) (length (lit "one block"))
           (length text_lines) paragraphs
           (if 1 <? paragraphs
            then lit "multi-paragraph" else lit "single-block")
       /\ 1 <= length words <= length (lit "one block")
       /\ 1 <= paragraphs <= length text_lines.
Proof.
  apply (@X10_report_counts_consistent (lit "one block")). reflexivity.
Defined.

(** X11.  A text without an empty line (no two newlines in a row) is
    always reported as one paragraph and [single-block], whatever its
    length and number of lines. *)
Theorem X11_no_empty_line_single_block (text : str) :
  forallb isspace text = false ->
  (forall pre post, text <> pre ++ [10%N; 10%N] ++ post) ->
  Tools.analyze_text_structure text
  = report_text (length (split text)) (length text)
      (S (count_occ N.eq_dec text 10%N)) 1 (lit "single-block").
Proof.
  intros Hb Hno.
  rewrite (analyze_report text Hb). cbv zeta.
  assert (E : split_sep [10%N; 10%N] text = [text]).
  { symmetry. apply pieces_split_sep; [discriminate|].
    now apply pieces_last. }
  rewrite E. cbn [filter]. rewrite Hb. cbn [negb length Nat.ltb Nat.leb].
  unfold split_sep. now rewrite split_sep_char_length, filter_count_occ.
Qed.

Lemma X11_witness :
  Tools.analyze_text_structure (lines [lit "a b"; lit "c"])
  = report_text 3 5 2 1 (lit "single-block").
Proof.
  apply (@X11_no_empty_line_single_block (lines [lit "a b"; lit "c"]));
    [reflexivity|].
  intros pre post E.
  change (lines [lit "a b"; lit "c"])
    with [97%N; 32%N; 98%N; 10%N; 99%N] in E.
  do 5 (destruct pre as [|? pre]; [discriminate E|];
        injection E as _ E).
  destruct pre; discriminate E.
Defined.

Lemma isspace_range (c : char) :
  isspace c = true -> (c <= 32 \/ 133 <= c)%N.
Proof.
  unfold isspace. intros H.
  repeat (apply orb_true_iff in H as [H|H]);
    try (apply andb_true_iff in H as [H1 H2];
         apply N.leb_le in H1; apply N.leb_le in H2; lia);
    apply N.eqb_eq in H; lia.
Qed.

Lemma same_letter_isspace (a b : char) :
  same_letter a b -> isspace a = isspace b.
Proof.
  assert (Hn : forall x, (65 <= x <= 122)%N -> isspace x = false).
  { intros x Hx. destruct (isspace x) eqn:E; [|reflexivity].
    apply isspace_range in E. lia. }
  intros (c & [[Ha Ea]|[Ha Ea]] & [[Hb Eb]|[Hb Eb]]).
  - rewrite !Hn by lia. reflexivity.
  - rewrite !Hn by lia. reflexivity.
  - rewrite !Hn by lia. reflexivity.
  - congruence.
Qed.

Lemma same_letter_lower (a b : char) :
  same_letter a b -> Tools.ascii_lower a = Tools.ascii_lower b.
Proof.
  intros (c & Ha & Hb).
  apply lowers_ascii_lower in Ha, Hb. congruence.
Qed.

Lemma same_letter_of_lower (text1 text2 : str) :
  map Tools.ascii_lower text1 = map Tools.ascii_lower text2 ->
  Forall2 same_letter text1 text2.
Proof.
  revert text2. induction text1 as [|a l1 IH]; intros [|b l2] E;
    try discriminate; [constructor|].
  injection E as Eab El. constructor; [|now apply IH].
  exists (Tools.ascii_lower a).
  split; apply lowers_ascii_lower; congruence.
Qed.

(** X12.  [extract_key_themes] does not see the case of ASCII letters:
    two ASCII texts that differ only in case give the same result. *)
Theorem X12_themes_ignore_case (U : Tools.Unicode) (text1 text2 : str) :
  ascii text1 -> ascii text2 ->
  Forall2 same_letter text1 text2 ->
  Tools.extract_key_themes U text1 = Tools.extract_key_themes U text2.
Proof.
  intros H1 H2 H.
  assert (Hs : forallb isspace text1 = forallb isspace text2).
  { induction H as [|a b l1 l2 Hab _ IH]; [reflexivity|].
    inversion H1; inversion H2; subst. cbn [forallb].
    rewrite (same_letter_isspace Hab). f_equal. now apply IH. }
  assert (Hl : Tools.lower U text1 = Tools.lower U text2).
  { unfold Tools.lower.
    apply ascii_forallb in H1 as ->. apply ascii_forallb in H2 as ->.
    clear Hs. induction H as [|a b l1 l2 Hab _ IH]; [reflexivity|].
    cbn [map]. now rewrite (same_letter_lower Hab), IH. }
  unfold Tools.extract_key_themes, Tools.top_themes.
  now rewrite !strip_truthy_forallb, Hs, Hl.
Qed.

Lemma X12_witness :
  Tools.extract_key_themes Doubles.ascii_only (lit "Alpha ALPHA beta!")
  = Tools.extract_key_themes Doubles.ascii_only (lit "alpha alpha BETA!").
Proof.
  apply X12_themes_ignore_case.
  - apply ascii_forallb. reflexivity.
  - apply ascii_forallb. reflexivity.
  - apply same_letter_of_lower. reflexivity.
Defined.

(** X13.  [suggest_improvements] never looks at the text.  Its result
    names the focus and lists exactly three suggestions separated by
    [; ]; a focus other than [clarity], [structure] and [engagement]
    (also the omitted one, reported as [general]) gets the general
    suggestions. *)
Theorem X13_suggestions_format (text : str) (focus : option str) :
  let label := match focus with None => lit "general" | Some f => f end in
  exists s1 s2 s3,
    Tools.suggest_improvements text focus
    = lit "Improvement suggestions for " ++ label ++ lit ": "
        ++ s1 ++ lit "; " ++ s2 ++ lit "; " ++ s3
    /\ pieces (lit "; ") (s1 ++ lit "; " ++ s2 ++ lit "; " ++ s3)
         [s1; s2; s3]
    /\ (forall text', Tools.suggest_improvements text' focus
                      = Tools.suggest_improvements text focus)
    /\ (label <> lit "clarity" -> label <> lit "structure" ->
        label <> lit "engagement" ->
        s1 = lit "Check for grammar and spelling errors"
        /\ s2 = lit "Ensure consistent tone throughout"
        /\ s3 = lit "Remove unnecessary words and phrases").
Proof.
  intros label. unfold Tools.suggest_improvements. fold label.
  destruct (str_eqb label (lit "clarity")) eqn:E1;
    [|destruct (str_eqb label (lit "structure")) eqn:E2;
      [|destruct (str_eqb label (lit "engagement")) eqn:E3]];
    (eexists _, _, _; split; [reflexivity|];
     split; [apply pieces_split_sep; [discriminate | vm_compute; reflexivity]|];
     split; [reflexivity|]).
  - apply str_eqb_eq in E1. intros H; now destruct H.
  - apply str_eqb_eq in E2. intros _ H; now destruct H.
  - apply str_eqb_eq in E3. intros _ _ H; now destruct H.
  - intros _ _ _. repeat split.
Qed.

Lemma X13_witness :
  Tools.suggest_improvements (lit "some text") (Some (lit "tone"))
  = lit "Improvement suggestions for tone: Check for grammar and spelling errors; Ensure consistent tone throughout; Remove unnecessary words and phrases".
Proof.
  destruct (X13_suggestions_format (lit "some text") (Some (lit "tone")))
    as (s1 & s2 & s3 & E & _ & _ & H).
  destruct H as (-> & -> & ->); [discriminate | discriminate | discriminate|].
  exact E.
Defined.

Lemma add_if_agree (ctx ctx' : dict str) (key prefix m : str) :
  dict_get ctx key = dict_get ctx' key ->
  Agent.add_if ctx key prefix m = Agent.add_if ctx' key prefix m.
Proof. unfold Agent.add_if. now intros ->. Qed.

Lemma add_if_unset (ctx : dict str) (key prefix m : str) :
  unset ctx key -> Agent.add_if ctx key prefix m = m.
Proof. unfold Agent.add_if. now intros [-> | ->]. Qed.

(** X14.  The user message of a request: both graphs build the same
    one; it depends on the context only through the keys of the action
    ([style] and [length] for [generate], [focus] for [edit], [aspect]
    otherwise); and when these are missing or empty it is a fixed lead
    of the action followed by the content, unchanged. *)
Theorem X14_user_message_context (action : str) :
  (forall content ctx,
      Studio.user_message action content ctx
      = Agent.user_message action content ctx)
  /\ (forall content ctx ctx',
         (forall k, In k (relevant_keys action) ->
                    dict_get ctx k = dict_get ctx' k) ->
         Agent.user_message action content ctx
         = Agent.user_message action content ctx')
  /\ (exists lead,
         forall content ctx,
           (forall k, In k (relevant_keys action) -> unset ctx k) ->
           Agent.user_message action content ctx = lead ++ content).
Proof.
  split; [reflexivity|]. split.
  - intros content ctx ctx' H. revert H.
    unfold relevant_keys, Agent.user_message.
    destruct (str_eqb action (lit "generate"));
      [|destruct (str_eqb action (lit "edit"))]; intros H.
    + rewrite (@add_if_agree ctx ctx' (lit "style"))
        by (apply H; simpl; auto).
      apply add_if_agree. apply H; simpl; auto.
    + apply add_if_agree. apply H; simpl; auto.
    + apply add_if_agree. apply H; simpl; auto.
  - unfold relevant_keys, Agent.user_message.
    destruct (str_eqb action (lit "generate"));
      [|destruct (str_eqb action (lit "edit"))];
      eexists; intros content ctx H;
      rewrite !add_if_unset by (apply H; simpl; auto); reflexivity.
Qed.

Lemma X14_witness :
  Agent.user_message (lit "edit") (lit "my text")
    [(lit "style", lit "formal"); (lit "focus", [])]
  = lines [ lit "Please help me edit and improve this text:"; [];
            lit "my text" ].
Proof.
  destruct (X14_user_message_context (lit "edit")) as (_ & _ & lead & H).
  pose proof (H [] [] ltac:(intros k _; left; reflexivity)) as E0.
  rewrite app_nil_r in E0. subst lead.
  exact (H (lit "my text")
           [(lit "style", lit "formal"); (lit "focus", [])]
           ltac:(intros k [<-|[]]; right; reflexivity)).
Defined.

(** ** The Studio graph *)

Lemma studio_agent_node_cases {W : Type} (llm : option (Agent.gateway W))
    (U : Tools.Unicode) (w : W) (st : WritingState) :
  exists w' base c tcs,
    StudioGraph.agent_node llm U w st
    = (w', {| out_messages := base ++ [AIMessage c tcs];
              out_iterations := Some (iterations st + 1)%Z |})
    /\ base = match messages st with
              | [] => Studio.initial_messages (action st) (content st)
                        (context st)
              | _ :: _ => messages st
              end
    /\ match llm with
       | None =>
           w' = w /\ tcs = []
           /\ c = StudioGraph._generate_mock_response U (action st)
                    (content st) (context st)
       | Some invoke =>
           match invoke w base with
           | (w1, inr (c1, tcs1)) => w' = w1 /\ c = c1 /\ tcs = tcs1
           | (w1, inl e) =>
               w' = w1 /\ tcs = []
               /\ c = StudioGraph.api_error_text e
                        (StudioGraph._generate_mock_response U (action st)
                           (content st) (context st))
           end
       end.
Proof.
  unfold StudioGraph.agent_node.
  set (base := match messages st with
               | [] => Studio.initial_messages (action st) (content st)
                         (context st)
               | _ :: _ => messages st
               end).
  destruct llm as [invoke|].
  - destruct (invoke w base) as [w1 [e|[c1 tcs1]]] eqn:E.
    + eexists w1, base, _, []. rewrite E. repeat split.
    + exists w1, base, c1, tcs1. rewrite E. repeat split.
  - eexists w, base, _, []. repeat split.
Qed.

Lemma studio_should_continue_agent (st : WritingState) (base : list Message)
    (c : str) (tcs : list ToolCall) (i : Z) :
  StudioGraph.should_continue
    (apply_output st {| out_messages := base ++ [AIMessage c tcs];
                        out_iterations := Some i |})
  = if (max_iterations st <=? i)%Z then Agent.End
    else match tcs with [] => Agent.End | _ :: _ => Agent.Continue end.
Proof.
  unfold StudioGraph.should_continue, apply_output. simpl.
  now rewrite last_message_snoc.
Qed.

Section StudioLoop.

Context {W : Type} (rt : Agent.Runtime) (llm : option (Agent.gateway W))
  (U : Tools.Unicode).

Lemma studio_astream_from_step (fuel : nat) (n : Agent.node) (w : W)
    (st : WritingState) :
  StudioGraph.astream_from rt llm U (S fuel) n w st
  = match StudioGraph.run_node rt llm U n w st with
    | inl e => Raise e
    | inr (w', out) =>
        Yield (n, out)
          (match StudioGraph.next_node n (apply_output st out) with
           | Some n' =>
               StudioGraph.astream_from rt llm U fuel n' w'
                 (apply_output st out)
           | None =>
               match fuel with
               | O => Raise (Agent.recursion_error rt)
               | S _ => Stop
               end
           end)
    end.
Proof.
  cbn [StudioGraph.astream_from].
  destruct (StudioGraph.run_node rt llm U n w st) as [e|[w' out]];
    [reflexivity|].
  destruct fuel; [|reflexivity].
  destruct (StudioGraph.next_node n (apply_output st out)); reflexivity.
Qed.

Lemma studio_agent_visits (fuel : nat) :
  forall n w st,
    (Z.of_nat (visits Agent.agent
                 (StudioGraph.astream_from rt llm U fuel n w st))
     <= slack st)%Z.
Proof.
  unfold slack, visits, nodes_run.
  induction fuel as [|fuel IH]; intros n w st; [simpl; lia|].
  rewrite studio_astream_from_step.
  destruct n; cbn [StudioGraph.run_node].
  - destruct (studio_agent_node_cases llm U w st)
      as (w' & base & c & tcs & E & _ & _).
    rewrite E. cbn [yielded map fst filter node_eqb length].
    unfold StudioGraph.next_node. rewrite studio_should_continue_agent.
    destruct (max_iterations st <=? iterations st + 1)%Z eqn:Hmax.
    + destruct fuel; simpl; lia.
    + apply Z.leb_gt in Hmax.
      destruct tcs as [|tc tcs]; [destruct fuel; simpl; lia|].
      match goal with
      | |- context [StudioGraph.astream_from rt llm U fuel Agent.tools w' ?s] =>
          specialize (IH Agent.tools w' s); simpl in IH
      end.
      cbn [length]. lia.
  - destruct (Agent.tool_node rt (messages st)) as [e|ms]; [simpl; lia|].
    cbn [yielded map fst filter node_eqb StudioGraph.next_node].
    match goal with
    | |- context [StudioGraph.astream_from rt llm U fuel Agent.agent w ?s] =>
        specialize (IH Agent.agent w s); simpl in IH
    end.
    exact IH.
Qed.

Lemma studio_reaches_end (fuel : nat) :
  tool_node_total rt ->
  forall n w st,
    (need n st <= Z.of_nat fuel)%Z ->
    reaches_end (StudioGraph.astream_from rt llm U fuel n w st).
Proof.
  intros Htool. unfold reaches_end, need, slack.
  induction fuel as [|fuel IH]; intros n w st Hfuel.
  - destruct n; lia.
  - rewrite studio_astream_from_step.
    destruct n; cbn [StudioGraph.run_node].
    + destruct (studio_agent_node_cases llm U w st)
        as (w' & base & c & tcs & E & _ & _).
      rewrite E. cbn [raised].
      unfold StudioGraph.next_node. rewrite studio_should_continue_agent.
      destruct (max_iterations st <=? iterations st + 1)%Z eqn:Hmax;
        [destruct fuel; [lia | reflexivity]|].
      apply Z.leb_gt in Hmax.
      destruct tcs as [|tc tcs]; [destruct fuel; [lia | reflexivity]|].
      apply IH.
      cbn [apply_output out_iterations iterations max_iterations]. lia.
    + destruct (Htool (messages st)) as [ms Hms]. rewrite Hms.
      cbn [raised StudioGraph.next_node].
      apply IH.
      cbn [apply_output out_iterations iterations max_iterations]. lia.
Qed.

End StudioLoop.

(** X15.  When the model answers, the agent node of the Studio graph
    writes what the agent node of the service writes, on every state
    that carries messages or whose action is not [edit].  On an [edit]
    request without messages the two differ: the system prompts are not
    the same text. *)
Theorem X15_studio_node_agrees (W : Type) (self : Agent.WritingAgent W)
    (gw : Agent.gateway W) (U : Tools.Unicode) (w w' : W)
    (st : WritingState) (reply : str * list ToolCall) :
  let base := match messages st with
              | [] => Agent.initial_messages (action st) (content st)
                        (context st)
              | _ :: _ => messages st
              end in
  Agent.llm self = Some gw ->
  gw w base = (w', inr reply) ->
  (messages st <> [] \/ action st <> lit "edit") ->
  StudioGraph.agent_node (Some gw) U w st = Agent.agent_node self w st
  /\ forall content ctx,
       Studio.initial_messages (lit "edit") content ctx
       <> Agent.initial_messages (lit "edit") content ctx.
Proof.
  intros base Hllm Hgw Hst. split.
  - assert (Hbase : match messages st with
                    | [] => Studio.initial_messages (action st) (content st)
                              (context st)
                    | _ :: _ => messages st
                    end = base).
    { subst base. destruct (messages st) as [|m ms]; [|reflexivity].
      destruct Hst as [H|H]; [now destruct H|].
      unfold Studio.initial_messages, Agent.initial_messages.
      f_equal. f_equal.
      unfold Studio.system_prompt, Agent.system_prompt,
        Studio.system_prompts, Agent.system_prompts.
      cbn [dict_get].
      destruct (str_eqb (lit "generate") (action st)); [reflexivity|].
      destruct (str_eqb (lit "edit") (action st)) eqn:E;
        [apply str_eqb_eq in E; now destruct H|].
      reflexivity. }
    unfold StudioGraph.agent_node, Agent.agent_node, Agent.agent_node_try.
    rewrite Hbase, Hllm. fold base. rewrite Hgw.
    destruct reply as [c tcs]. reflexivity.
  - intros content ctx E.
    apply (f_equal (fun l => match l with
                             | SystemMessage p :: _ => p
                             | _ => []
                             end)) in E.
    vm_compute in E. discriminate E.
Qed.

Lemma X15_witness :
  StudioGraph.agent_node (Some (Doubles.gw_say (lit "fine")))
    Doubles.ascii_only tt (Doubles.state0 (lit "generate") 5)
  = Agent.agent_node (Doubles.agent_with (Doubles.gw_say (lit "fine"))) tt
      (Doubles.state0 (lit "generate") 5).
Proof.
  refine (proj1 (@X15_studio_node_agrees unit
                   (Doubles.agent_with (Doubles.gw_say (lit "fine")))
                   (Doubles.gw_say (lit "fine")) Doubles.ascii_only tt tt
                   (Doubles.state0 (lit "generate") 5) (lit "fine", [])
                   eq_refl eq_refl _)).
  right. discriminate.
Defined.

(** X16.  Without a client, or when the call of the model raises, a run
    of the Studio graph is one visit of the agent node: the message it
    appends asks for no tool and ends with the mock response, and the
    run reaches [END]. *)
Theorem X16_studio_fallback_ends_run (W : Type) (rt : Agent.Runtime)
    (llm : option (Agent.gateway W)) (U : Tools.Unicode) (fuel : nat)
    (w : W) (st : WritingState) :
  let base := match messages st with
              | [] => Studio.initial_messages (action st) (content st)
                        (context st)
              | _ :: _ => messages st
              end in
  let mock := StudioGraph._generate_mock_response U (action st)
                (content st) (context st) in
  let run := StudioGraph.astream_from rt llm U (S (S fuel)) Agent.agent
               w st in
  match llm with
  | None => True
  | Some invoke => exists w1 e, invoke w base = (w1, inl e)
  end ->
  exists pre,
    yielded run
    = [(Agent.agent,
        {| out_messages := base ++ [AIMessage (pre ++ mock) []];
           out_iterations := Some (iterations st + 1)%Z |})]
    /\ reaches_end run
    /\ match llm with
       | None => pre = []
       | Some invoke =>
           forall w1 e, invoke w base = (w1, inl e) ->
             pre = [9888%N; 65039%N] ++ lit " **API Error:** " ++ e
                     ++ lines [ []; []; lit "Falling back to mock response:";
                                []; [] ]
       end.
Proof.
  intros base mock run Hllm. subst run.
  rewrite studio_astream_from_step. cbn [StudioGraph.run_node].
  destruct (studio_agent_node_cases llm U w st)
    as (w' & base' & c & tcs & E & Hbase & Hc).
  fold base in Hbase. subst base'. rewrite E.
  unfold StudioGraph.next_node. rewrite studio_should_continue_agent.
  destruct llm as [invoke|].
  - destruct Hllm as (w1 & e & Hinv). rewrite Hinv in Hc.
    destruct Hc as (-> & -> & ->).
    exists ([9888%N; 65039%N] ++ lit " **API Error:** " ++ e
              ++ lines [ []; []; lit "Falling back to mock response:";
                         []; [] ]).
    assert (Ec : StudioGraph.api_error_text e mock
                 = ([9888%N; 65039%N] ++ lit " **API Error:** " ++ e
                      ++ lines [ []; []; lit "Falling back to mock response:";
                                 []; [] ]) ++ mock).
    { unfold StudioGraph.api_error_text. now rewrite <- !app_assoc. }
    fold mock. rewrite Ec.
    split; [|split].
    + destruct (max_iterations st <=? iterations st + 1)%Z; reflexivity.
    + unfold reaches_end.
      destruct (max_iterations st <=? iterations st + 1)%Z; reflexivity.
    + intros w2 e2 H2. rewrite Hinv in H2. now injection H2 as _ <-.
  - destruct Hc as (-> & -> & ->). exists []. fold mock.
    split; [|split].
    + destruct (max_iterations st <=? iterations st + 1)%Z; reflexivity.
    + unfold reaches_end.
      destruct (max_iterations st <=? iterations st + 1)%Z; reflexivity.
    + reflexivity.
Qed.

Lemma X16_witness :
  exists pre,
    yielded (StudioGraph.astream_from Doubles.rt25 (Some Doubles.gw_fail)
               Doubles.ascii_only 25 Agent.agent tt
               (Doubles.state0 (lit "edit") 5))
    = [(Agent.agent,
        {| out_messages :=
             Studio.initial_messages (lit "edit") (lit "a prompt") []
               ++ [AIMessage (pre ++ StudioGraph.mock_edit) []];
           out_iterations := Some 1%Z |})]
    /\ pre = [9888%N; 65039%N] ++ lit " **API Error:** boom"
               ++ lines [ []; []; lit "Falling back to mock response:";
                          []; [] ].
Proof.
  destruct (@X16_studio_fallback_ends_run unit Doubles.rt25
              (Some Doubles.gw_fail) Doubles.ascii_only 23 tt
              (Doubles.state0 (lit "edit") 5)
              (ex_intro _ tt (ex_intro _ (lit "boom") eq_refl)))
    as (pre & Hy & _ & Hpre).
  exists pre. split; [exact Hy|].
  exact (Hpre tt (lit "boom") eq_refl).
Defined.

(** X17.  The loop of the Studio graph is bounded like the one of the
    service: from any state the agent node runs at most
    [max(1, max_iterations - iterations)] times, and the run reaches
    [END] when the tool node does not raise and the step bound leaves
    two steps for each of these visits. *)
Theorem X17_studio_loop_bounded (W : Type) (rt : Agent.Runtime)
    (llm : option (Agent.gateway W)) (U : Tools.Unicode) (fuel : nat)
    (w : W) (st : WritingState) :
  let run := StudioGraph.astream_from rt llm U fuel Agent.agent w st in
  (Z.of_nat (visits Agent.agent run)
   <= Z.max 1 (max_iterations st - iterations st))%Z
  /\ (tool_node_total rt ->
      (2 * Z.max 1 (max_iterations st - iterations st) <= Z.of_nat fuel)%Z ->
      reaches_end run).
Proof.
  intros run. split.
  - exact (studio_agent_visits rt llm U fuel Agent.agent w st).
  - intros Htool Hfuel.
    exact (studio_reaches_end llm U fuel Htool Agent.agent w st Hfuel).
Qed.

Lemma X17_witness :
  (Z.of_nat (visits Agent.agent
               (StudioGraph.astream_from Doubles.rt25 (Some Doubles.gw_tool)
                  Doubles.ascii_only 25 Agent.agent tt
                  (Doubles.state0 (lit "generate") 3))) <= 3)%Z
  /\ reaches_end
       (StudioGraph.astream_from Doubles.rt25 (Some Doubles.gw_tool)
          Doubles.ascii_only 25 Agent.agent tt
          (Doubles.state0 (lit "generate") 3)).
Proof.
  destruct (@X17_studio_loop_bounded unit Doubles.rt25
              (Some Doubles.gw_tool) Doubles.ascii_only 25 tt
              (Doubles.state0 (lit "generate") 3)) as [Hv He].
  split; [exact Hv|].
  apply He.
  - intros ms. unfold Doubles.rt25, Doubles.tool_node_ok. cbn [Agent.tool_node].
    destruct (last_message ms) as [[| |c tcs|]|]; eexists; reflexivity.
  - simpl. lia.
Defined.

Lemma contains_unfold (p s : str) :
  contains p s
  = starts_with p s
    || match s with [] => false | _ :: s' => contains p s' end.
Proof. destruct s; reflexivity. Qed.

Lemma contains_app (p pre post : str) :
  contains p (pre ++ p ++ post) = true.
Proof.
  induction pre as [|c pre IH].
  - cbn [app]. rewrite contains_unfold, starts_with_prefix. reflexivity.
  - rewrite contains_unfold. cbn [app]. rewrite IH. apply orb_true_r.
Qed.

(** X18.  The mock response of the Studio graph is chosen by keyword,
    without regard to case and to the context: a [generate] request
    whose ASCII prompt contains [history] in any capitalisation gets
    the text on history, also when other keywords occur; an [edit]
    request gets the same text for every content. *)
Theorem X18_mock_response_by_keyword (U : Tools.Unicode)
    (pre keyword post : str) (ctx : dict str) :
  ascii (pre ++ keyword ++ post) ->
  Forall2 lowers keyword (lit "history") ->
  StudioGraph._generate_mock_response U (lit "generate")
    (pre ++ keyword ++ post) ctx
  = StudioGraph.mock_generate_history
  /\ (forall action content ctx',
         StudioGraph._generate_mock_response U action content ctx'
         = StudioGraph._generate_mock_response U action content ctx)
  /\ (forall content,
         StudioGraph._generate_mock_response U (lit "edit") content ctx
         = StudioGraph.mock_edit).
Proof.
  intros Ha Hk. split; [|split; reflexivity].
  unfold StudioGraph._generate_mock_response.
  change (str_eqb (lit "generate") (lit "generate")) with true. cbv iota.
  unfold Tools.lower.
  apply ascii_forallb in Ha. rewrite Ha.
  rewrite !map_app.
  apply (Forall2_map_iff lowers Tools.ascii_lower lowers_ascii_lower) in Hk.
  rewrite <- Hk. now rewrite contains_app.
Qed.

Lemma X18_witness :
  StudioGraph._generate_mock_response Doubles.ascii_only (lit "generate")
    (lit "Technology in HiStOrY books") []
  = StudioGraph.mock_generate_history.
Proof.
  refine (proj1 (@X18_mock_response_by_keyword Doubles.ascii_only
                   (lit "Technology in ") (lit "HiStOrY") (lit " books") []
                   _ _)).
  - apply ascii_forallb. reflexivity.
  - apply (Forall2_map_iff lowers Tools.ascii_lower lowers_ascii_lower).
    reflexivity.
Defined.
